(** * quantumTaskScheduler: the model built by [TaskScheduler] (src/schedule.py)

    A shallow embedding of the construction of the discrete quadratic model:
    task splitting, variable registration, pairwise conflict penalties and the
    two passes that set the linear biases.

    Conventions of the embedding.
    - Python [int] is [Z]; [//] and [%] are [Z.div] and [Z.modulo] (both floor
      towards minus infinity, the remainder has the sign of the divisor) and
      raise [ZeroDivisionError] on a zero divisor.
    - Python [float] is IEEE 754 binary64, as the Standard Library specifies
      it ([SpecFloat], precision 53, [emax] 1024): every operation rounds to
      nearest, ties to even.  True division [/] of two [int] gives the
      correctly rounded quotient and raises [OverflowError] when that is
      outside the range of [float]; [+] on floats never raises.
    - A Python [dict] iterated in insertion order is an association list with
      unique keys ([dict_set] replaces in place or appends).
    - [set] of hours is [gset Z]; [range n] is [seqZ 0 n].
    - [str] is [string]; the decimal text of an [int] in an f-string is
      [pretty], and [<] on [str] is [String.ltb], the lexicographic order on
      character codes.
    - An exception is the [Raise] branch of [result]. *)

From Stdlib Require Import ZArith QArith String Ascii List Lia.
From Stdlib Require Import Floats.SpecFloat.
From stdpp Require Import base list list_numbers gmap strings pretty.

Local Open Scope Z_scope.

(** ** Exceptions and the result monad

    [ZeroDivisionError] and [OverflowError] are Python's; [ValueError],
    [DuplicateVariableError] and [UnknownVariableError] are the errors of the
    model: a refused argument, a label registered twice, an unknown label.
    [InfeasibleTaskError] is the error kind that section 7 of the spec names
    for a chunk longer than the horizon; the source defines no such
    exception and nothing below raises it. *)

Inductive exn : Type :=
  | ZeroDivisionError
  | OverflowError
  | ValueError
  | DuplicateVariableError
  | UnknownVariableError
  | InfeasibleTaskError.

Inductive result (A : Type) : Type :=
  | Ok (a : A)
  | Raise (e : exn).
Arguments Ok {A} a.
Arguments Raise {A} e.

#[global] Instance result_ret : MRet result := @Ok.
#[global] Instance result_bind : MBind result :=
  λ A B f m, match m with Ok a => f a | Raise e => Raise e end.

(** [for x in l: s = body x s], stopping at the first exception. *)
Fixpoint for_each {A S : Type} (l : list A) (body : A → S → result S) (s : S)
  : result S :=
  match l with
  | [] => Ok s
  | x :: l' => s' ← body x s; for_each l' body s'
  end.

(** ** Python primitives *)

Definition floordiv (a b : Z) : result Z :=
  if decide (b = 0) then Raise ZeroDivisionError else Ok (a `div` b).

Definition pymod (a b : Z) : result Z :=
  if decide (b = 0) then Raise ZeroDivisionError else Ok (a `mod` b).

Definition range (n : Z) : list Z := seqZ 0 n.

(** The list comprehension [[f x for x in l]] whose element expression can
    raise: the elements are computed in order, up to the first exception. *)
Fixpoint list_comprehension {A B : Type} (f : A → result B) (l : list A)
  : result (list B) :=
  match l with
  | [] => Ok []
  | x :: l' => y ← f x; ys ← list_comprehension f l'; Ok (y :: ys)
  end.

(** *** Floats

    A [float] is a binary64 number: a signed zero, an infinity, a NaN, or
    [(-1)^s * m * 2^e]. *)
Definition float : Type := spec_float.

(** The conversion of an [int] that meets a float: an operand of a float
    [+], an element of a bias vector handed to the model.  It gives the
    nearest float; the program converts only 0, 1, 10 and 20, which are
    floats. *)
Definition float_of_int (z : Z) : float := binary_normalize 53 1024 z 0 false.

(** [x + y] on floats rounds and never raises. *)
Definition float_add (x y : float) : float := SFadd 53 1024 x y.

(** An [int] as an operand of [/]: the integer itself, as a mantissa with the
    exponent 0.  It is not rounded: only the quotient is. *)
Definition int_operand (z : Z) : float :=
  match z with
  | Z0 => S754_zero false
  | Zpos p => S754_finite false p 0
  | Zneg p => S754_finite true p 0
  end.

(** The quotient of two integers, rounded once to the nearest float; an
    infinity when the rounded quotient is beyond the largest float. *)
Definition quotient (a b : Z) : float :=
  SFdiv 53 1024 (int_operand a) (int_operand b).

(** [a / b] on two [int]: [ZeroDivisionError] for a zero divisor,
    [OverflowError] ("integer division result too large for a float") when
    the rounded quotient is not finite. *)
Definition true_div (a b : Z) : result float :=
  if decide (b = 0) then Raise ZeroDivisionError
  else match quotient a b with
       | S754_infinity _ => Raise OverflowError
       | q => Ok q
       end.

(** The rational number a finite float denotes. *)
Definition float_value (x : float) : option Q :=
  match x with
  | S754_zero _ => Some 0%Q
  | S754_finite s m e =>
      Some (Qred (inject_Z (if s then Zneg m else Zpos m) * 2 ^ e)%Q)
  | S754_infinity _ | S754_nan => None
  end.

(** [d[k] = v] on an insertion-ordered dict. *)
Fixpoint dict_set {V : Type} (k : string) (v : V) (d : list (string * V))
  : list (string * V) :=
  match d with
  | [] => [(k, v)]
  | (k', v') :: d' =>
      if decide (k = k') then (k, v) :: d' else (k', v') :: dict_set k v d'
  end.

Definition keys {V : Type} (d : list (string * V)) : list string := d.*1.

(** ** Tasks *)

Record info : Type := Info { duration : Z; deadline : Z; priority : Z }.

(** The f-string [f"{task}_{i}"]. *)
Definition chunk_name (task : string) (i : Z) : string :=
  task +:+ "_" +:+ pretty i.

(** ** [TaskScheduler._split_tasks] (lines 88-111) *)

Definition split_task (max_task_duration : Z) (entry : string * info)
    (split_tasks : list (string * info)) : result (list (string * info)) :=
  let '(task, inf) := entry in
  let duration := duration inf in
  num_chunks ← floordiv duration max_task_duration;
  remainder ← pymod duration max_task_duration;
  let split_tasks :=
    foldl (λ acc i,
             dict_set (chunk_name task i)
               {| duration := max_task_duration;
                  deadline := deadline inf;
                  priority := priority inf |} acc)
          split_tasks (range num_chunks) in
  Ok (if decide (remainder > 0)
      then dict_set (chunk_name task num_chunks)
             {| duration := remainder;
                deadline := deadline inf;
                priority := priority inf |} split_tasks
      else split_tasks).

Definition _split_tasks (max_task_duration : Z) (tasks : list (string * info))
  : result (list (string * info)) :=
  for_each tasks (split_task max_task_duration) [].

(** ** The discrete quadratic model

    [self.dqm] is an object of the class DiscreteQuadraticModel of the
    package dimod, an external library whose source is not part of the
    repository.  Its state and operations follow the contract of the
    ModelAssembler, section 4.5 of the spec. *)

(** Modelled from the spec: the state of the DiscreteQuadraticModel (missing
    from the sources): every variable with its domain cardinality, every
    bias vector, and the penalty entries of the pairs of cases.  The biases
    are kept as the floats the passes compute; the only penalty entry ever
    written is the integer 10. *)
Record DQM : Type := Dqm {
  num_cases : gmap string Z;
  linear : gmap string (list float);
  quadratic : gmap (string * Z * (string * Z)) Q
}.

Definition empty_dqm : DQM :=
  {| num_cases := ∅; linear := ∅; quadratic := ∅ |}.

Section Model.

(** The spec does not say which cardinalities the model itself refuses; that
    check of the library is the parameter [admits].  The library refuses a
    cardinality that is not positive; where that matters it is a hypothesis
    on [admits]. *)
Variable admits : Z → bool.

(** Modelled from the spec: DiscreteQuadraticModel.add_variable (missing from
    the sources) registers a chunk with its domain cardinality; a label
    registered before is an error.  A new variable has zero biases. *)
Definition add_variable (n : Z) (label : string) (m : DQM) : result DQM :=
  match num_cases m !! label with
  | Some _ => Raise DuplicateVariableError
  | None =>
      if admits n
      then Ok {| num_cases := <[label := n]> (num_cases m);
                 linear :=
                   <[label := replicate (Z.to_nat n) (float_of_int 0)]>
                     (linear m);
                 quadratic := quadratic m |}
      else Raise ValueError
  end.

End Model.

(** Modelled from the spec: DiscreteQuadraticModel.set_linear (missing from
    the sources) takes a vector whose length is the domain size of the chunk
    and overwrites the previous one; an unknown label is an error. *)
Definition set_linear (label : string) (biases : list float) (m : DQM)
  : result DQM :=
  match num_cases m !! label with
  | None => Raise UnknownVariableError
  | Some n =>
      if decide (Z.of_nat (length biases) = n)
      then Ok {| num_cases := num_cases m;
                 linear := <[label := biases]> (linear m);
                 quadratic := quadratic m |}
      else Raise ValueError
  end.

(** Modelled from the spec: DiscreteQuadraticModel.get_linear (missing from
    the sources) exposes the bias vector of a chunk. *)
Definition get_linear (label : string) (m : DQM) : result (list float) :=
  match linear m !! label with
  | Some biases => Ok biases
  | None => Raise UnknownVariableError
  end.

(** Modelled from the spec: one penalty entry [(case_u, case_v): bias] of an
    unordered pair of chunks (the store is missing from the sources); it is
    kept under both orientations of the pair. *)
Definition set_quadratic_case (u : string) (cu : Z) (v : string) (cv : Z)
    (bias : Q) (q : gmap (string * Z * (string * Z)) Q)
  : gmap (string * Z * (string * Z)) Q :=
  <[(u, cu, (v, cv)) := bias]> (<[(v, cv, (u, cu)) := bias]> q).

(** Modelled from the spec: DiscreteQuadraticModel.set_quadratic (missing
    from the sources) merges the entries of the given table into those of the
    unordered pair; an unknown label is an error. *)
Definition set_quadratic (u v : string) (biases : list (Z * Z * Q)) (m : DQM)
  : result DQM :=
  match num_cases m !! u, num_cases m !! v with
  | Some _, Some _ =>
      Ok {| num_cases := num_cases m;
            linear := linear m;
            quadratic :=
              foldl (λ q e, set_quadratic_case u e.1.1 v e.1.2 e.2 q)
                    (quadratic m) biases |}
  | _, _ => Raise UnknownVariableError
  end.

(** Modelled from the spec: the read-only view of the finished model (missing
    from the sources): the bias of one start time of a chunk, as the float
    that is stored ([linear_float]) and as the number it denotes
    ([linear_case]), and the penalty of one pair of start times ([None]: no
    entry, an implicit zero). *)
Definition linear_float (m : DQM) (label : string) (t : Z) : option float :=
  if decide (0 ≤ t)
  then biases ← linear m !! label; biases !! Z.to_nat t
  else None.

Definition linear_case (m : DQM) (label : string) (t : Z) : option Q :=
  linear_float m label t ≫= float_value.

Definition quadratic_case (m : DQM) (u : string) (cu : Z) (v : string) (cv : Z)
  : option Q :=
  quadratic m !! (u, cu, (v, cv)).

(** ** [TaskScheduler._add_variables] (lines 53-56) *)

Definition _add_variables (admits : Z → bool) (tasks : list (string * info))
    (max_deadline : Z) (dqm : DQM) : result DQM :=
  for_each tasks
    (λ '(task, inf) dqm,
       let num_start_times := max_deadline - duration inf + 1 in
       add_variable admits num_start_times task dqm)
    dqm.

(** ** [TaskScheduler._add_constraints_and_penalties] (lines 58-66) *)

(** The test of line 65:
    [t1 <= t2 < t1 + dur1 or t2 <= t1 < t2 + dur2]. *)
Definition conflict (t1 dur1 t2 dur2 : Z) : bool :=
  (Z.leb t1 t2 && Z.ltb t2 (t1 + dur1)) || (Z.leb t2 t1 && Z.ltb t1 (t2 + dur2)).

(** Lines 60-62: the two loops over [self.tasks.items()] with the guard
    [task1 < task2]; [body] is what runs under the guard. *)
Definition for_each_pair {S : Type} (tasks : list (string * info))
    (body : string * info → string * info → S → result S) (s : S) : result S :=
  for_each tasks
    (λ c1, for_each tasks
       (λ c2 s, if String.ltb c1.1 c2.1 then body c1 c2 s else Ok s))
    s.

(** Lines 63-66. *)
Definition penalize_pair (max_deadline : Z) (c1 c2 : string * info) (dqm : DQM)
  : result DQM :=
  let penalty := 10%Q in
  let '(task1, info1) := c1 in
  let '(task2, info2) := c2 in
  for_each (range (max_deadline - duration info1 + 1))
    (λ t1, for_each (range (max_deadline - duration info2 + 1))
       (λ t2 dqm,
          if conflict t1 (duration info1) t2 (duration info2)
          then set_quadratic task1 task2 [(t1, t2, penalty)] dqm
          else Ok dqm))
    dqm.

Definition _add_constraints_and_penalties (tasks : list (string * info))
    (max_deadline : Z) (dqm : DQM) : result DQM :=
  for_each_pair tasks (penalize_pair max_deadline) dqm.

(** ** [TaskScheduler._add_deadline_and_unavailable_penalties] (lines 68-75) *)

Definition deadline_penalties (inf : info) (max_deadline : Z) : list Z :=
  let deadline_penalty := 10 in
  (λ t, if decide (t + duration inf > deadline inf) then deadline_penalty else 0)
    <$> range (max_deadline - duration inf + 1).

Definition unavailable_penalties (unavailable_hours : gset Z) (inf : info)
    (max_deadline : Z) : list Z :=
  let unavailable_penalty := 10 in
  (λ t, if decide (t ∈ unavailable_hours) then unavailable_penalty else 0)
    <$> range (max_deadline - duration inf + 1).

Definition _add_deadline_and_unavailable_penalties
    (tasks : list (string * info)) (max_deadline : Z)
    (unavailable_hours : gset Z) (dqm : DQM) : result DQM :=
  for_each tasks
    (λ '(task, inf) dqm,
       let penalties := deadline_penalties inf max_deadline in
       let unavailable_penalties :=
         unavailable_penalties unavailable_hours inf max_deadline in
       let combined_penalties :=
         zip_with Z.add penalties unavailable_penalties in
       set_linear task (float_of_int <$> combined_penalties) dqm)
    dqm.

(** ** [TaskScheduler._add_priority_rewards] (lines 77-86) *)

(** Line 81: [reward_factor * info['priority'] / (t + 1)] is the true
    division of two [int]. *)
Definition rewards (inf : info) (max_deadline : Z) : result (list float) :=
  let reward_factor := 1 in
  list_comprehension (λ t, true_div (reward_factor * priority inf) (t + 1))
    (range (max_deadline - duration inf + 1)).

Definition favorite_hour_rewards (favorite_hours : gset Z) (inf : info)
    (max_deadline : Z) : list Z :=
  let favorite_hour_reward := 1 in
  (λ t, if decide (t ∈ favorite_hours) then favorite_hour_reward else 0)
    <$> range (max_deadline - duration inf + 1).

Definition _add_priority_rewards (tasks : list (string * info))
    (max_deadline : Z) (favorite_hours : gset Z) (dqm : DQM) : result DQM :=
  for_each tasks
    (λ '(task, inf) dqm,
       rewards ← rewards inf max_deadline;
       let favorite_hour_rewards :=
         favorite_hour_rewards favorite_hours inf max_deadline in
       let combined_rewards :=
         zip_with (λ reward favorite_hour_reward,
                     float_add reward (float_of_int favorite_hour_reward))
                  rewards favorite_hour_rewards in
       current_penalties ← get_linear task dqm;
       let combined_biases :=
         zip_with float_add current_penalties combined_rewards in
       set_linear task combined_biases dqm)
    dqm.

(** ** [TaskScheduler.__init__] (lines 8-23)

    The three files are taken as already read: [tasks] is the dict of
    [_read_tasks], the two sets those of [_read_unavailable_hours] and
    [_read_favorite_hours]. *)

Definition __init__ (admits : Z → bool) (tasks : list (string * info))
    (num_days : Z) (unavailable_hours : gset Z) (max_task_duration : Z)
    (favorite_hours : gset Z) : result DQM :=
  tasks ← _split_tasks max_task_duration tasks;
  let max_deadline := num_days * 24 in
  let dqm := empty_dqm in
  dqm ← _add_variables admits tasks max_deadline dqm;
  dqm ← _add_constraints_and_penalties tasks max_deadline dqm;
  dqm ← _add_deadline_and_unavailable_penalties tasks max_deadline
          unavailable_hours dqm;
  _add_priority_rewards tasks max_deadline favorite_hours dqm.


(** ** The scheduler of the command line (line 130)

    [TaskScheduler(args.tasks_file, args.num_days,
    args.unavailable_hours_file, favorite_hours_file=...)]: the argument
    [max_task_duration] is left to its default of line 8, which is 1. *)

Definition main_task_scheduler (admits : Z → bool)
    (tasks : list (string * info)) (num_days : Z)
    (unavailable_hours favorite_hours : gset Z) : result DQM :=
  __init__ admits tasks num_days unavailable_hours 1 favorite_hours.

(** ** The chunks as section 4.1 of the spec words them

    [num_full] chunks of the maximal duration at indices [0 .. num_full-1],
    then one chunk holding the remainder at index [num_full] when the
    remainder is positive. *)
Definition spec_chunks (max_chunk_duration : Z) (entry : string * info)
  : list (string * info) :=
  let '(task, inf) := entry in
  let num_full := duration inf `div` max_chunk_duration in
  let remainder := duration inf `mod` max_chunk_duration in
  ((λ i, (chunk_name task i,
          {| duration := max_chunk_duration;
             deadline := deadline inf;
             priority := priority inf |})) <$> seqZ 0 num_full)
  ++ (if decide (remainder > 0)
      then [(chunk_name task num_full,
             {| duration := remainder;
                deadline := deadline inf;
                priority := priority inf |})]
      else []).

Definition sum_durations (chunks : list (string * info)) : Z :=
  foldr Z.add 0 (duration <$> chunks.*2).

(** ** Auxiliary definitions of the proofs *)

(** The character [c] occurs in [s]. *)
Fixpoint occurs (c : ascii) (s : string) : Prop :=
  match s with
  | EmptyString => False
  | String a s' => a = c ∨ occurs c s'
  end.

(** A model with its quadratic, or its linear, part replaced. *)
Definition with_quadratic (q : gmap (string * Z * (string * Z)) Q) (m : DQM)
  : DQM :=
  {| num_cases := num_cases m; linear := linear m; quadratic := q |}.

Definition with_linear (l : gmap string (list float)) (m : DQM) : DQM :=
  {| num_cases := num_cases m; linear := l; quadratic := quadratic m |}.

(** The penalty entries, each written under both orientations. *)
Definition add_entries (es : list (string * Z * (string * Z)))
    (q : gmap (string * Z * (string * Z)) Q)
  : gmap (string * Z * (string * Z)) Q :=
  foldl (λ q e, set_quadratic_case e.1.1 e.1.2 e.2.1 e.2.2 10%Q q) q es.

(** The pairs of chunks that reach the body of the guard [task1 < task2],
    in the order of the two loops. *)
Definition ordered_pairs (tasks : list (string * info))
  : list ((string * info) * (string * info)) :=
  c1 ← tasks; c2 ← tasks; if String.ltb c1.1 c2.1 then [(c1, c2)] else [].

(** The entries one pair of chunks contributes. *)
Definition pair_entries (max_deadline : Z)
    (p : (string * info) * (string * info))
  : list (string * Z * (string * Z)) :=
  t1 ← range (max_deadline - duration p.1.2 + 1);
  t2 ← range (max_deadline - duration p.2.2 + 1);
  if conflict t1 (duration p.1.2) t2 (duration p.2.2)
  then [(p.1.1, t1, (p.2.1, t2))] else [].

(** Line 66 for one entry. *)
Definition write_entry (e : string * Z * (string * Z)) (dqm : DQM)
  : result DQM :=
  set_quadratic e.1.1 e.2.1 [(e.1.2, e.2.2, 10%Q)] dqm.

(** A chunk whose variable the model accepts and whose bias vectors fit it:
    the cardinality is not negative and the model admits it. *)
Definition feasible (admits : Z → bool) (max_deadline : Z) (inf : info)
  : Prop :=
  0 ≤ max_deadline - duration inf + 1
  ∧ admits (max_deadline - duration inf + 1) = true.

(** A chunk all of whose rewards are in the range of [float]: line 81 raises
    nothing for it. *)
Definition finite_rewards (max_deadline : Z) (inf : info) : Prop :=
  ∃ rs, rewards inf max_deadline = Ok rs.

(** What the constructor builds: the four passes on the chunks. *)
Definition passes (admits : Z → bool) (chunks : list (string * info))
    (H : Z) (unavailable_hours favorite_hours : gset Z) : result DQM :=
  dqm ← _add_variables admits chunks H empty_dqm;
  dqm ← _add_constraints_and_penalties chunks H dqm;
  dqm ← _add_deadline_and_unavailable_penalties chunks H unavailable_hours dqm;
  _add_priority_rewards chunks H favorite_hours dqm.

(** The terms of the bias of start time [t], as the two passes compute
    them; [priority_term] is the exact quotient, [reward_term] the float of
    line 81. *)
Definition deadline_term (inf : info) (t : Z) : Z :=
  if decide (t + duration inf > deadline inf) then 10 else 0.

Definition unavailable_term (unavailable_hours : gset Z) (t : Z) : Z :=
  if decide (t ∈ unavailable_hours) then 10 else 0.

Definition priority_term (inf : info) (t : Z) : Q :=
  (inject_Z (priority inf) / inject_Z (t + 1))%Q.

Definition favorite_term (favorite_hours : gset Z) (t : Z) : Z :=
  if decide (t ∈ favorite_hours) then 1 else 0.

Definition reward_term (inf : info) (t : Z) : float :=
  quotient (priority inf) (t + 1).

(** What the first pass stores for start time [t], and what the second pass
    adds to a stored bias [b]. *)
Definition penalty_bias (unavailable_hours : gset Z) (inf : info) (t : Z)
  : float :=
  float_of_int (deadline_term inf t + unavailable_term unavailable_hours t).

Definition add_rewards (favorite_hours : gset Z) (inf : info) (t : Z)
    (b : float) : float :=
  float_add b (float_add (reward_term inf t)
                 (float_of_int (favorite_term favorite_hours t))).

(** The bias of start time [t] as the two passes leave it: the second pass
    adds its rewards to what the first pass stored. *)
Definition combined_bias (unavailable_hours favorite_hours : gset Z)
    (inf : info) (t : Z) : float :=
  add_rewards favorite_hours inf t (penalty_bias unavailable_hours inf t).

(** ** Inputs of the examples *)

(** The end-to-end example of the spec: task A of duration 2, deadline 5 and
    priority 1, split with a maximal chunk duration of 1. *)
Definition task_A : list (string * info) :=
  [("A"%string, {| duration := 2; deadline := 5; priority := 1 |})].

Definition chunks_A : list (string * info) :=
  [("A_0"%string, {| duration := 1; deadline := 5; priority := 1 |});
   ("A_1"%string, {| duration := 1; deadline := 5; priority := 1 |})].

(** One task whose only chunk, of duration 25, exceeds a horizon of one
    day. *)
Definition task_long : list (string * info) :=
  [("A"%string, {| duration := 25; deadline := 30; priority := 1 |})].

Definition chunks_long : list (string * info) :=
  [("A_0"%string, {| duration := 25; deadline := 30; priority := 1 |})].

(** One task of priority 0 that fits its deadline at every start time. *)
Definition task_plain : list (string * info) :=
  [("A"%string, {| duration := 1; deadline := 24; priority := 0 |})].

(** Hour 3 is unavailable, hour 4 is a favorite hour. *)
Definition unavailable_3 : gset Z := {[ 3 ]}.

Definition favorite_4 : gset Z := {[ 4 ]}.

(** Hour 10 as the favorite hour. *)
Definition favorite_10 : gset Z := {[ 10 ]}.

(** A task of one hour before a task whose only chunk, of duration 25,
    exceeds a horizon of one day. *)
Definition tasks_short_long : list (string * info) :=
  [("B"%string, {| duration := 1; deadline := 24; priority := 1 |});
   ("A"%string, {| duration := 25; deadline := 30; priority := 1 |})].

Definition chunks_short_long : list (string * info) :=
  [("B_0"%string, {| duration := 1; deadline := 24; priority := 1 |});
   ("A_0"%string, {| duration := 25; deadline := 30; priority := 1 |})].

(** Task A of the example after a task of duration 0. *)
Definition tasks_empty_A : list (string * info) :=
  [("Z"%string, {| duration := 0; deadline := 5; priority := 1 |});
   ("A"%string, {| duration := 2; deadline := 5; priority := 1 |})].

(** A task whose deadline is the end of the horizon of one day, and a task
    whose deadline is before the end of its own duration. *)
Definition tasks_reach : list (string * info) :=
  [("A"%string, {| duration := 1; deadline := 24; priority := 0 |});
   ("B"%string, {| duration := 2; deadline := 1; priority := 3 |})].

Definition chunks_reach : list (string * info) :=
  [("A_0"%string, {| duration := 1; deadline := 24; priority := 0 |});
   ("B_0"%string, {| duration := 2; deadline := 1; priority := 3 |})].

(** A model in which the two chunks of task A are registered with 24 start
    times and hold bias vectors left by an earlier use. *)
Definition registered_A : DQM :=
  {| num_cases := <["A_0"%string := 24]> (<["A_1"%string := 24]> ∅);
     linear := <["A_0"%string := replicate 24 (float_of_int 7)]>
                 (<["A_1"%string := replicate 24 (float_of_int 0)]> ∅);
     quadratic := ∅ |}.

(** The check of the library: a cardinality that is not positive is
    refused. *)
Definition admits_positive (n : Z) : bool := 0 <? n.


(** Feasibility, and finite rewards, of each chunk of a concrete list. *)
Ltac feasible_chunks :=
  repeat (apply Forall_cons; split;
          [split; [cbn; lia | reflexivity] |]);
  apply Forall_nil_2.

Ltac finite_chunks :=
  repeat (apply Forall_cons; split;
          [eexists; vm_compute; reflexivity |]);
  apply Forall_nil_2.

(** * Proofs *)

(** ** The result monad and [for_each] *)

Lemma bind_Ok {A B : Type} (f : A → result B) (a : A) : Ok a ≫= f = f a.
Proof. reflexivity. Qed.

Lemma for_each_app {A S : Type} (l1 l2 : list A) (body : A → S → result S) s :
  for_each (l1 ++ l2) body s = for_each l1 body s ≫= for_each l2 body.
Proof.
  revert s. induction l1 as [|x l1 IH]; intros s; simpl; [done|].
  destruct (body x s) as [s'|e]; simpl; [apply IH | done].
Qed.

(** ** Chunk names are unambiguous *)

Lemma occurs_app c s1 s2 : occurs c (s1 +:+ s2) ↔ occurs c s1 ∨ occurs c s2.
Proof. induction s1 as [|a s1 IH]; simpl; [tauto | rewrite IH; tauto]. Qed.

Lemma pretty_N_go_underscore x s :
  ¬ occurs "_" s → ¬ occurs "_" (pretty_N_go x s).
Proof.
  revert s. induction (N.lt_wf_0 x) as [x _ IH]; intros s Hs.
  destruct (decide (x = 0)%N) as [->|Hx]; [by rewrite pretty_N_go_0|].
  rewrite pretty_N_go_step by lia. apply IH.
  - apply N.div_lt; lia.
  - simpl. intros [Hc|?]; [|done].
    unfold pretty_N_char in Hc. repeat case_match; discriminate.
Qed.

Lemma pretty_N_underscore (x : N) : ¬ occurs "_" (pretty x).
Proof.
  unfold pretty, pretty_N. case_decide.
  - simpl. intros [?|[]]; discriminate.
  - apply pretty_N_go_underscore. simpl. tauto.
Qed.

Lemma pretty_Z_underscore (z : Z) : ¬ occurs "_" (pretty z).
Proof.
  destruct z as [|p|p]; unfold pretty, pretty_Z.
  - simpl. intros [?|[]]; discriminate.
  - apply pretty_N_underscore.
  - rewrite occurs_app. intros [H|H].
    + simpl in H. destruct H as [?|[]]; discriminate.
    + by apply pretty_N_underscore in H.
Qed.

Lemma app_Empty s : "" +:+ s = s.
Proof. reflexivity. Qed.

Lemma app_String a s1 s2 : String a s1 +:+ s2 = String a (s1 +:+ s2).
Proof. reflexivity. Qed.

Lemma underscore_split s1 s2 r1 r2 :
  ¬ occurs "_" r1 → ¬ occurs "_" r2 →
  s1 +:+ "_" +:+ r1 = s2 +:+ "_" +:+ r2 → s1 = s2 ∧ r1 = r2.
Proof.
  intros H1 H2. revert s2.
  induction s1 as [|a s1 IH]; intros [|b s2] Heq;
    rewrite ?app_String, ?app_Empty in Heq.
  - by simplify_eq.
  - injection Heq as <- ->. destruct H1. rewrite occurs_app. simpl. tauto.
  - injection Heq as -> <-. destruct H2. rewrite occurs_app. simpl. tauto.
  - injection Heq as -> Heq. apply IH in Heq as [-> ->]. done.
Qed.

Lemma chunk_name_inj task1 i1 task2 i2 :
  chunk_name task1 i1 = chunk_name task2 i2 → task1 = task2 ∧ i1 = i2.
Proof.
  unfold chunk_name. intros Heq.
  apply underscore_split in Heq as [-> Hp]; auto using pretty_Z_underscore.
  split; [done|]. by apply (inj pretty).
Qed.

(** ** Insertion-ordered dicts *)

Lemma keys_dict_set {V : Type} k (v : V) d :
  keys (dict_set k v d) = if decide (k ∈ keys d) then keys d else keys d ++ [k].
Proof.
  unfold keys. induction d as [|[k' v'] d IH].
  - case_decide as Hin; [by apply elem_of_nil in Hin | done].
  - cbn [dict_set]. destruct (decide (k = k')) as [->|Hne].
    + rewrite decide_True; [done | apply list_elem_of_here].
    + rewrite !fmap_cons, IH. cbn [fst].
      destruct (decide (k ∈ d.*1)) as [Hin|Hin].
      * rewrite decide_True; [done | by apply list_elem_of_further].
      * rewrite decide_False; [done|]. rewrite elem_of_cons. tauto.
Qed.

Lemma dict_set_fresh {V : Type} k (v : V) d :
  k ∉ keys d → dict_set k v d = d ++ [(k, v)].
Proof.
  unfold keys. induction d as [|[k' v'] d IH]; simpl; [done|].
  rewrite elem_of_cons. intros Hk.
  rewrite decide_False by tauto. rewrite IH by tauto. done.
Qed.

Lemma dict_set_NoDup {V : Type} k (v : V) d :
  NoDup (keys d) → NoDup (keys (dict_set k v d)).
Proof.
  intros Hd. rewrite keys_dict_set. case_decide; [done|].
  apply NoDup_app. split_and!; [done | | apply NoDup_singleton].
  intros x Hx ->%list_elem_of_singleton. done.
Qed.

Lemma keys_app {V : Type} (d1 d2 : list (string * V)) :
  keys (d1 ++ d2) = keys d1 ++ keys d2.
Proof. unfold keys. apply fmap_app. Qed.

(** In a dict, a key has one value. *)
Lemma dict_lookup_unique {V : Type} (d : list (string * V)) k v1 v2 :
  NoDup (keys d) → (k, v1) ∈ d → (k, v2) ∈ d → v1 = v2.
Proof.
  unfold keys. induction d as [|[k' v'] d IH]; simpl.
  - intros _ H. by apply elem_of_nil in H.
  - rewrite NoDup_cons, !elem_of_cons. intros [Hk Hd] [H1|H1] [H2|H2].
    + congruence.
    + destruct Hk. injection H1 as <- <-.
      apply list_elem_of_fmap. by exists (k, v2).
    + destruct Hk. injection H2 as <- <-.
      apply list_elem_of_fmap. by exists (k, v1).
    + by apply IH.
Qed.

(** ** [_split_tasks] *)

Lemma keys_spec_chunks m task inf k :
  k ∈ keys (spec_chunks m (task, inf)) → ∃ i, k = chunk_name task i.
Proof.
  unfold spec_chunks. rewrite keys_app, elem_of_app. unfold keys.
  intros [H|H].
  - rewrite <- list_fmap_compose in H.
    apply list_elem_of_fmap in H as (i & -> & _). by exists i.
  - case_decide; [|by apply elem_of_nil in H].
    apply list_elem_of_singleton in H. eauto.
Qed.

Lemma full_chunks_fresh task (c : info) acc n :
  (∀ i, chunk_name task i ∉ keys acc) →
  foldl (λ acc i, dict_set (chunk_name task i) c acc) acc (seqZ 0 n)
  = acc ++ ((λ i, (chunk_name task i, c)) <$> seqZ 0 n).
Proof.
  intros Hacc. destruct (decide (n ≤ 0)) as [Hn|Hn].
  { rewrite seqZ_nil by done. simpl. by rewrite app_nil_r. }
  rewrite <- (Z2Nat.id n) by lia. induction (Z.to_nat n) as [|k IH].
  { simpl. by rewrite app_nil_r. }
  rewrite seqZ_S, foldl_app, IH, fmap_app, app_assoc. simpl.
  apply dict_set_fresh. rewrite keys_app, elem_of_app. intros [H|H].
  - by apply Hacc in H.
  - unfold keys in H. rewrite <- list_fmap_compose in H.
    apply list_elem_of_fmap in H as (i & Heq & Hi). simpl in Heq.
    apply chunk_name_inj in Heq as [_ <-].
    apply elem_of_seqZ in Hi. lia.
Qed.

Lemma split_task_fresh m task inf acc :
  m ≠ 0 → (∀ i, chunk_name task i ∉ keys acc) →
  split_task m (task, inf) acc = Ok (acc ++ spec_chunks m (task, inf)).
Proof.
  intros Hm Hacc. unfold split_task, floordiv, pymod, spec_chunks, range.
  rewrite !decide_False by done. simpl.
  rewrite full_chunks_fresh by done. f_equal.
  case_decide as Hrem; [|by rewrite app_nil_r].
  rewrite app_assoc. apply dict_set_fresh.
  rewrite keys_app, elem_of_app. intros [H|H].
  - by apply Hacc in H.
  - unfold keys in H. rewrite <- list_fmap_compose in H.
    apply list_elem_of_fmap in H as (i & Heq & Hi). simpl in Heq.
    apply chunk_name_inj in Heq as [_ <-].
    apply elem_of_seqZ in Hi. lia.
Qed.

Lemma for_each_split_fresh m tasks acc :
  m ≠ 0 → NoDup (keys tasks) →
  (∀ task i, task ∈ keys tasks → chunk_name task i ∉ keys acc) →
  for_each tasks (split_task m) acc = Ok (acc ++ (tasks ≫= spec_chunks m)).
Proof.
  intros Hm. revert acc. induction tasks as [|[task inf] tasks IH];
    intros acc Hnd Hacc; cbn [for_each].
  { by rewrite app_nil_r. }
  unfold keys in Hnd. simpl in Hnd. apply NoDup_cons in Hnd as [Hhd Hnd].
  rewrite split_task_fresh; [|done|].
  2:{ intros i. apply Hacc. unfold keys. simpl. apply list_elem_of_here. }
  rewrite bind_Ok, IH; [by rewrite <- app_assoc | done |].
  intros task' i Hin. rewrite keys_app, elem_of_app. intros [H|H].
  - revert H. apply Hacc. unfold keys. simpl. by apply list_elem_of_further.
  - apply keys_spec_chunks in H as (j & Heq).
    apply chunk_name_inj in Heq as [-> _]. done.
Qed.

(** Distinct task names give exactly the chunks of the spec, in order. *)
Lemma split_tasks_spec_chunks m tasks :
  m ≠ 0 → NoDup (keys tasks) →
  _split_tasks m tasks = Ok (tasks ≫= spec_chunks m).
Proof.
  intros Hm Hnd. unfold _split_tasks.
  rewrite for_each_split_fresh; [done..|].
  intros ? ? _. apply not_elem_of_nil.
Qed.

Lemma split_task_NoDup m entry acc chunks :
  split_task m entry acc = Ok chunks → NoDup (keys acc) → NoDup (keys chunks).
Proof.
  destruct entry as [task inf]. unfold split_task, floordiv, pymod.
  case_decide; [done|]. simpl. intros [= <-] Hacc.
  assert (∀ l, NoDup (keys (foldl (λ acc i,
            dict_set (chunk_name task i)
              {| duration := m; deadline := deadline inf;
                 priority := priority inf |} acc) acc l))) as Hfull.
  { induction l as [|i l IH] using rev_ind; simpl; [done|].
    rewrite foldl_app. simpl. by apply dict_set_NoDup. }
  case_decide; [apply dict_set_NoDup|]; apply Hfull.
Qed.

(** The result of the splitter is a dict: its keys are distinct. *)
Lemma split_tasks_NoDup m tasks chunks :
  _split_tasks m tasks = Ok chunks → NoDup (keys chunks).
Proof.
  unfold _split_tasks.
  assert (∀ acc, for_each tasks (split_task m) acc = Ok chunks →
            NoDup (keys acc) → NoDup (keys chunks)) as Hgen.
  { induction tasks as [|entry tasks IH]; intros acc; simpl.
    - by intros [= <-].
    - destruct (split_task m entry acc) as [acc'|e] eqn:Hstep; [|done].
      simpl. intros Hrest Hacc. apply (IH acc'); [done|].
      by eapply split_task_NoDup. }
  intros H. apply (Hgen [] H). unfold keys. simpl. apply NoDup_nil_2.
Qed.

Lemma split_tasks_zero entry tasks :
  _split_tasks 0 (entry :: tasks) = Raise ZeroDivisionError.
Proof. by destruct entry. Qed.

Lemma split_task_negative m task inf acc :
  m < 0 → 0 < duration inf → split_task m (task, inf) acc = Ok acc.
Proof.
  intros Hm Hd. unfold split_task, floordiv, pymod, range.
  rewrite !decide_False by lia. simpl.
  pose proof (Z.div_mod (duration inf) m ltac:(lia)).
  pose proof (Z.mod_neg_bound (duration inf) m Hm).
  rewrite seqZ_nil by nia. simpl. by rewrite decide_False by lia.
Qed.

Lemma split_tasks_negative m tasks :
  m < 0 → Forall (λ c, 0 < duration c.2) tasks → _split_tasks m tasks = Ok [].
Proof.
  intros Hm. unfold _split_tasks. generalize (@nil (string * info)).
  induction tasks as [|[task inf] tasks IH]; intros acc Hpos; [done|].
  apply Forall_cons in Hpos as [Hd Hpos]. cbn [for_each].
  rewrite split_task_negative by done. rewrite bind_Ok. by apply IH.
Qed.

Lemma split_task_total m entry acc :
  m ≠ 0 → ∃ chunks, split_task m entry acc = Ok chunks.
Proof.
  intros Hm. destruct entry as [task inf].
  unfold split_task, floordiv, pymod. rewrite !decide_False by done.
  simpl. eauto.
Qed.

Lemma split_tasks_total m tasks :
  m ≠ 0 → ∃ chunks, _split_tasks m tasks = Ok chunks.
Proof.
  intros Hm. unfold _split_tasks. generalize (@nil (string * info)).
  induction tasks as [|entry tasks IH]; intros acc; cbn [for_each]; [eauto|].
  destruct (split_task_total m entry acc Hm) as [acc' ->].
  rewrite bind_Ok. apply IH.
Qed.

(** ** More on [for_each] *)

Lemma bind_Ok_r {A : Type} (m : result A) : m ≫= Ok = m.
Proof. by destruct m. Qed.

Lemma for_each_ext {A S : Type} (l : list A) (f g : A → S → result S) s :
  (∀ x s, x ∈ l → f x s = g x s) → for_each l f s = for_each l g s.
Proof.
  revert s. induction l as [|x l IH]; intros s Hfg; cbn [for_each]; [done|].
  rewrite Hfg by apply list_elem_of_here.
  destruct (g x s) as [s'|e]; [|done]. rewrite !bind_Ok.
  apply IH. intros y s'' Hy. apply Hfg. by apply list_elem_of_further.
Qed.

(** Nested loops are one loop over the flattened list. *)
Lemma for_each_bind {A B S : Type} (l : list A) (g : A → list B)
    (body : B → S → result S) s :
  for_each (l ≫= g) body s = for_each l (λ x, for_each (g x) body) s.
Proof.
  revert s. induction l as [|x l IH]; intros s; [done|].
  change ((x :: l) ≫= g) with (g x ++ (l ≫= g)).
  rewrite for_each_app. cbn [for_each].
  destruct (for_each (g x) body s) as [s'|e]; [|done].
  rewrite !bind_Ok. apply IH.
Qed.

Lemma for_each_guard {A S : Type} (b : bool) (x : A)
    (body : A → S → result S) s :
  for_each (if b then [x] else []) body s = if b then body x s else Ok s.
Proof. destruct b; cbn [for_each]; [apply bind_Ok_r | done]. Qed.

Lemma for_each_commute {A : Type} (l : list A) (body : A → DQM → result DQM)
    (g : DQM → DQM) s :
  (∀ x s, body x (g s) = body x s ≫= λ s', Ok (g s')) →
  for_each l body (g s) = for_each l body s ≫= λ s', Ok (g s').
Proof.
  intros Hbody. revert s. induction l as [|x l IH]; intros s; [done|].
  cbn [for_each]. rewrite Hbody.
  destruct (body x s) as [s1|e]; [|done]. rewrite !bind_Ok. apply IH.
Qed.

Lemma for_each_invariant {A S : Type} (R : S → S → Prop) (l : list A)
    (body : A → S → result S) s s' :
  (∀ s, R s s) → (∀ a b c, R a b → R b c → R a c) →
  (∀ x s s', body x s = Ok s' → R s s') →
  for_each l body s = Ok s' → R s s'.
Proof.
  intros Hrefl Htrans Hbody. revert s.
  induction l as [|x l IH]; intros s; cbn [for_each].
  - intros [= <-]. apply Hrefl.
  - destruct (body x s) as [s1|e] eqn:Hstep; [|done].
    rewrite bind_Ok. intros Hrest. eapply Htrans; [by eapply Hbody|by apply IH].
Qed.

(** ** [_add_variables] *)

Lemma add_variable_new admits n label m :
  num_cases m !! label = None → admits n = true →
  add_variable admits n label m
  = Ok {| num_cases := <[label := n]> (num_cases m);
          linear :=
            <[label := replicate (Z.to_nat n) (float_of_int 0)]> (linear m);
          quadratic := quadratic m |}.
Proof. unfold add_variable. by intros -> ->. Qed.

Lemma add_variable_refused admits n label m :
  num_cases m !! label = None → admits n = false →
  add_variable admits n label m = Raise ValueError.
Proof. unfold add_variable. by intros -> ->. Qed.

Lemma add_variables_ok admits chunks H dqm :
  NoDup (keys chunks) →
  (∀ k, k ∈ keys chunks → num_cases dqm !! k = None) →
  Forall (λ c, admits (H - duration c.2 + 1) = true) chunks →
  ∃ dqm', _add_variables admits chunks H dqm = Ok dqm'
    ∧ quadratic dqm' = quadratic dqm
    ∧ (∀ k inf, (k, inf) ∈ chunks →
         num_cases dqm' !! k = Some (H - duration inf + 1))
    ∧ (∀ k, k ∉ keys chunks → num_cases dqm' !! k = num_cases dqm !! k).
Proof.
  unfold _add_variables, keys. revert dqm.
  induction chunks as [|[task inf] chunks IH]; intros dqm Hnd Hnew Hadm.
  { exists dqm. split_and!; [done..| |done].
    intros k inf' Hin. by apply elem_of_nil in Hin. }
  rewrite fmap_cons in Hnd. apply NoDup_cons in Hnd as [Hhd Hnd].
  apply Forall_cons in Hadm as [Hadm1 Hadm].
  cbn [for_each]. cbv beta iota zeta. cbn [snd] in Hadm1.
  rewrite add_variable_new, bind_Ok;
    [|apply Hnew; rewrite fmap_cons; apply list_elem_of_here|done].
  edestruct IH as (dqm' & -> & Hq & Hin & Hout); [done| |done|].
  { intros k Hk. cbn [num_cases]. rewrite lookup_insert_ne.
    - apply Hnew. rewrite fmap_cons. by apply list_elem_of_further.
    - intros ->. done. }
  exists dqm'. split_and!; [done|done| |].
  - intros k inf' [Heq|Hk]%elem_of_cons.
    + injection Heq as -> ->. rewrite Hout by done.
      cbn [num_cases]. apply lookup_insert_eq.
    + by apply Hin.
  - intros k Hk. rewrite fmap_cons, not_elem_of_cons in Hk.
    destruct Hk as [Hne Hk]. rewrite Hout by done.
    cbn [num_cases]. by apply lookup_insert_ne.
Qed.

(** ** [_add_constraints_and_penalties] *)

Lemma for_each_pair_ordered {S : Type} tasks
    (body : string * info → string * info → S → result S) s :
  for_each_pair tasks body s
  = for_each (ordered_pairs tasks) (λ p, body p.1 p.2) s.
Proof.
  unfold for_each_pair, ordered_pairs.
  rewrite for_each_bind. apply for_each_ext. intros c1 s1 _.
  rewrite for_each_bind. apply for_each_ext. intros c2 s2 _.
  by rewrite for_each_guard.
Qed.

Lemma penalize_pair_entries H c1 c2 dqm :
  penalize_pair H c1 c2 dqm = for_each (pair_entries H (c1, c2)) write_entry dqm.
Proof.
  destruct c1 as [task1 info1], c2 as [task2 info2].
  unfold penalize_pair, pair_entries. cbn [fst snd].
  rewrite for_each_bind. apply for_each_ext. intros t1 s1 _.
  rewrite for_each_bind. apply for_each_ext. intros t2 s2 _.
  by rewrite for_each_guard.
Qed.

Lemma with_quadratic_id dqm : with_quadratic (quadratic dqm) dqm = dqm.
Proof. by destruct dqm. Qed.

Lemma write_entry_ok e dqm :
  is_Some (num_cases dqm !! e.1.1) → is_Some (num_cases dqm !! e.2.1) →
  write_entry e dqm
  = Ok (with_quadratic
          (set_quadratic_case e.1.1 e.1.2 e.2.1 e.2.2 10%Q (quadratic dqm)) dqm).
Proof. unfold write_entry, set_quadratic. by intros [n1 ->] [n2 ->]. Qed.

Lemma write_entries es dqm :
  (∀ e, e ∈ es →
     is_Some (num_cases dqm !! e.1.1) ∧ is_Some (num_cases dqm !! e.2.1)) →
  for_each es write_entry dqm
  = Ok (with_quadratic (add_entries es (quadratic dqm)) dqm).
Proof.
  revert dqm. induction es as [|e es IH]; intros dqm Hreg; cbn [for_each].
  { unfold add_entries. cbn [foldl]. by rewrite with_quadratic_id. }
  destruct (Hreg e) as [H1 H2]; [apply list_elem_of_here|].
  rewrite write_entry_ok, bind_Ok by done.
  rewrite IH; [done|]. intros e' He'.
  apply Hreg. by apply list_elem_of_further.
Qed.

Lemma elem_of_conflict_entries chunks H u tu v tv :
  (u, tu, (v, tv)) ∈ ordered_pairs chunks ≫= pair_entries H
  ↔ ∃ inf1 inf2,
      (u, inf1) ∈ chunks ∧ (v, inf2) ∈ chunks ∧ String.ltb u v = true
      ∧ 0 ≤ tu < H - duration inf1 + 1 ∧ 0 ≤ tv < H - duration inf2 + 1
      ∧ conflict tu (duration inf1) tv (duration inf2) = true.
Proof.
  unfold ordered_pairs, pair_entries, range. split.
  - intros ([[u' inf1] [v' inf2]] & He & Hp)%list_elem_of_bind.
    apply list_elem_of_bind in Hp as (c1 & Hp & Hc1).
    apply list_elem_of_bind in Hp as (c2 & Hp & Hc2).
    destruct (String.ltb c1.1 c2.1) eqn:Hlt; [|by apply elem_of_nil in Hp].
    apply list_elem_of_singleton in Hp. injection Hp as <- <-.
    cbn [fst snd] in *.
    apply list_elem_of_bind in He as (t1 & He & Ht1).
    apply list_elem_of_bind in He as (t2 & He & Ht2).
    destruct (conflict t1 (duration inf1) t2 (duration inf2)) eqn:Hc;
      [|by apply elem_of_nil in He].
    apply list_elem_of_singleton in He. injection He as -> -> -> ->.
    apply elem_of_seqZ in Ht1, Ht2.
    exists inf1, inf2. split_and!; (done || lia).
  - intros (inf1 & inf2 & Hc1 & Hc2 & Hlt & Ht1 & Ht2 & Hc).
    apply list_elem_of_bind. exists ((u, inf1), (v, inf2)). split.
    + cbn [fst snd]. apply list_elem_of_bind. exists tu. split.
      * apply list_elem_of_bind. exists tv. split.
        -- rewrite Hc. apply list_elem_of_singleton. done.
        -- apply elem_of_seqZ. lia.
      * apply elem_of_seqZ. lia.
    + apply list_elem_of_bind. exists (u, inf1). split; [|done].
      apply list_elem_of_bind. exists (v, inf2). split; [|done].
      cbn [fst]. rewrite Hlt. by apply list_elem_of_singleton.
Qed.

Lemma lookup_set_quadratic_case u cu v cv b q k :
  set_quadratic_case u cu v cv b q !! k
  = if decide (k = (u, cu, (v, cv)) ∨ k = (v, cv, (u, cu)))
    then Some b else q !! k.
Proof.
  unfold set_quadratic_case.
  destruct (decide (k = (u, cu, (v, cv)))) as [->|Hne].
  { rewrite lookup_insert_eq, decide_True; [done | by left]. }
  rewrite lookup_insert_ne by done.
  destruct (decide (k = (v, cv, (u, cu)))) as [->|Hne'].
  { rewrite lookup_insert_eq, decide_True; [done | by right]. }
  rewrite lookup_insert_ne by done. rewrite decide_False; [done | tauto].
Qed.

Lemma lookup_add_entries es q k :
  add_entries es q !! k
  = if decide (k ∈ es ∨ (k.2, k.1) ∈ es) then Some 10%Q else q !! k.
Proof.
  unfold add_entries. induction es as [|e es IH] using rev_ind.
  { cbn [foldl]. case_decide as Hd; [|done].
    destruct Hd as [H|H]; by apply elem_of_nil in H. }
  rewrite foldl_app. cbn [foldl]. rewrite lookup_set_quadratic_case, IH.
  destruct e as [[u tu] [v tv]], k as [[a ta] [b tb]]. cbn [fst snd].
  assert (((a, ta, (b, tb)) ∈ es ++ [(u, tu, (v, tv))]
           ∨ (b, tb, (a, ta)) ∈ es ++ [(u, tu, (v, tv))])
          ↔ ((a, ta, (b, tb)) = (u, tu, (v, tv))
             ∨ (a, ta, (b, tb)) = (v, tv, (u, tu)))
            ∨ ((a, ta, (b, tb)) ∈ es ∨ (b, tb, (a, ta)) ∈ es)) as Hiff.
  { rewrite !elem_of_app, !list_elem_of_singleton.
    split; intros H; intuition congruence. }
  repeat match goal with |- context [decide ?P] => destruct (decide P) end;
    try done; tauto.
Qed.

Lemma constraints_pass chunks H dqm :
  (∀ k, k ∈ keys chunks → is_Some (num_cases dqm !! k)) →
  _add_constraints_and_penalties chunks H dqm
  = Ok (with_quadratic
          (add_entries (ordered_pairs chunks ≫= pair_entries H) (quadratic dqm))
          dqm).
Proof.
  intros Hreg. unfold _add_constraints_and_penalties.
  rewrite for_each_pair_ordered.
  rewrite (for_each_ext _ _ (λ p, for_each (pair_entries H p) write_entry)).
  2:{ intros [c1 c2] s _. apply penalize_pair_entries. }
  rewrite <- for_each_bind. apply write_entries.
  intros [[u tu] [v tv]] He.
  apply elem_of_conflict_entries in He as (inf1 & inf2 & H1 & H2 & _).
  cbn [fst snd].
  split; apply Hreg; unfold keys; apply list_elem_of_fmap;
    [by exists (u, inf1) | by exists (v, inf2)].
Qed.

(** ** The two passes over the linear biases *)

Lemma zip_with_fmap_same {A B C D : Type} (f : B → C → D) (g : A → B)
    (h : A → C) (l : list A) :
  zip_with f (g <$> l) (h <$> l) = (λ x, f (g x) (h x)) <$> l.
Proof. induction l as [|x l IH]; [done|]. cbn. by rewrite IH. Qed.

Lemma length_range n : length (range n) = Z.to_nat n.
Proof. apply length_seqZ. Qed.

Lemma lookup_range n t : 0 ≤ t < n → range n !! Z.to_nat t = Some t.
Proof.
  intros Ht. unfold range. rewrite lookup_seqZ_lt by lia. f_equal. lia.
Qed.

Lemma set_linear_ok label biases m :
  num_cases m !! label = Some (Z.of_nat (length biases)) →
  set_linear label biases m
  = Ok (with_linear (<[label := biases]> (linear m)) m).
Proof. unfold set_linear. intros ->. by rewrite decide_True. Qed.

Lemma get_linear_ok label biases m :
  linear m !! label = Some biases → get_linear label m = Ok biases.
Proof. unfold get_linear. by intros ->. Qed.

(** The floats of Python on a few operands: a quotient is rounded to 53
    bits, a dividend above [2^53] is not rounded before the division, a
    quotient beyond the largest float is an [OverflowError], and a float
    sum can absorb its smaller operand. *)
Example true_div_rounds :
  true_div 1 3 = Ok (S754_finite false 6004799503160661 (-54)).
Proof. vm_compute. reflexivity. Qed.

Example true_div_rounds_once :
  true_div (2 ^ 53 + 1) 1 = Ok (float_of_int (2 ^ 53))
  ∧ true_div (2 ^ 1024 - 2 ^ 970 - 1) 1
    = Ok (float_of_int (2 ^ 1024 - 2 ^ 971))
  ∧ true_div (2 ^ 1024 - 2 ^ 970) 1 = Raise OverflowError.
Proof. split_and!; vm_compute; reflexivity. Qed.

Example true_div_overflows :
  true_div (10 ^ 400) 1 = Raise OverflowError
  ∧ true_div (- 10 ^ 400) 24 = Raise OverflowError.
Proof. split; vm_compute; reflexivity. Qed.

Example float_add_absorbs :
  float_add (float_of_int 10) (float_of_int (2 ^ 57)) = float_of_int (2 ^ 57).
Proof. vm_compute. reflexivity. Qed.

Lemma list_comprehension_Ok {A B : Type} (f : A → result B) (g : A → B)
    (l : list A) ys :
  (∀ x y, f x = Ok y → y = g x) →
  list_comprehension f l = Ok ys →
  ys = g <$> l ∧ Forall (λ x, f x = Ok (g x)) l.
Proof.
  intros Hg. revert ys. induction l as [|x l IH]; intros ys; cbn.
  { intros [= <-]. split; [reflexivity | apply Forall_nil_2]. }
  destruct (f x) as [y|e] eqn:Hx; [|discriminate].
  rewrite bind_Ok.
  destruct (list_comprehension f l) as [ys'|e]; [|discriminate].
  rewrite bind_Ok. intros [= <-]. destruct (IH ys' eq_refl) as [-> Hall].
  rewrite (Hg x y Hx) in Hx |- *. split; [reflexivity|].
  apply Forall_cons. split; [exact Hx | exact Hall].
Qed.

Lemma list_comprehension_fmap {A B : Type} (f : A → result B) (g : A → B)
    (l : list A) :
  Forall (λ x, f x = Ok (g x)) l → list_comprehension f l = Ok (g <$> l).
Proof.
  induction 1 as [|x l Hx _ IH]; cbn; [reflexivity|].
  by rewrite Hx, bind_Ok, IH, bind_Ok.
Qed.

Lemma true_div_Ok a b q : true_div a b = Ok q → q = quotient a b.
Proof.
  unfold true_div. case_decide; [discriminate|].
  destruct (quotient a b); intros [= <-] || discriminate; reflexivity.
Qed.

Lemma elem_of_range n t : t ∈ range n ↔ 0 ≤ t < n.
Proof. unfold range. rewrite elem_of_seqZ. lia. Qed.

(** The rewards of a chunk, when line 81 raises nothing: every quotient is
    finite, and the list holds them. *)
Lemma rewards_Ok inf H rs :
  rewards inf H = Ok rs →
  rs = reward_term inf <$> range (H - duration inf + 1)
  ∧ ∀ t, 0 ≤ t < H - duration inf + 1 →
         true_div (priority inf) (t + 1) = Ok (reward_term inf t).
Proof.
  unfold rewards. cbv zeta. rewrite Z.mul_1_l. intros Hrs.
  apply (list_comprehension_Ok _ (reward_term inf)) in Hrs as [-> Hall].
  - split; [reflexivity|]. intros t Ht.
    rewrite Forall_forall in Hall. apply Hall. by apply elem_of_range.
  - intros t q. apply true_div_Ok.
Qed.

Lemma list_comprehension_Raise {A B : Type} (f : A → result B) (l : list A)
    e :
  list_comprehension f l = Raise e → ∃ x, x ∈ l ∧ f x = Raise e.
Proof.
  induction l as [|x l IH]; cbn; [discriminate|].
  destruct (f x) as [y|e'] eqn:Hx.
  - rewrite bind_Ok.
    destruct (list_comprehension f l) as [ys|e']; [discriminate|].
    intros [= <-]. destruct (IH eq_refl) as (x' & Hin & Hx').
    exists x'. split; [by apply list_elem_of_further | exact Hx'].
  - intros [= <-]. exists x. split; [apply list_elem_of_here | exact Hx].
Qed.

(** The only exception of line 81 is [OverflowError]: the divisor [t + 1] is
    never 0. *)
Lemma rewards_Raise inf H e : rewards inf H = Raise e → e = OverflowError.
Proof.
  unfold rewards. cbv zeta. intros Hraise.
  apply list_comprehension_Raise in Hraise as (t & Ht%elem_of_range & Hdiv).
  unfold true_div in Hdiv. rewrite decide_False in Hdiv by lia.
  destruct (quotient _ _); by inversion Hdiv.
Qed.

Lemma combined_penalties_eq unavailable_hours inf H :
  float_of_int <$> zip_with Z.add (deadline_penalties inf H)
                     (unavailable_penalties unavailable_hours inf H)
  = penalty_bias unavailable_hours inf <$> range (H - duration inf + 1).
Proof.
  unfold deadline_penalties, unavailable_penalties.
  rewrite zip_with_fmap_same, <- list_fmap_compose. done.
Qed.

Lemma combined_rewards_eq favorite_hours inf H :
  zip_with (λ reward favorite_hour_reward,
              float_add reward (float_of_int favorite_hour_reward))
    (reward_term inf <$> range (H - duration inf + 1))
    (favorite_hour_rewards favorite_hours inf H)
  = (λ t, float_add (reward_term inf t)
            (float_of_int (favorite_term favorite_hours t)))
      <$> range (H - duration inf + 1).
Proof.
  unfold favorite_hour_rewards. by rewrite zip_with_fmap_same.
Qed.

Lemma penalties_pass chunks H unavailable_hours dqm :
  NoDup (keys chunks) →
  (∀ k inf, (k, inf) ∈ chunks →
     num_cases dqm !! k = Some (H - duration inf + 1)
     ∧ 0 ≤ H - duration inf + 1) →
  ∃ dqm',
    _add_deadline_and_unavailable_penalties chunks H unavailable_hours dqm
    = Ok dqm'
    ∧ num_cases dqm' = num_cases dqm
    ∧ quadratic dqm' = quadratic dqm
    ∧ (∀ k inf, (k, inf) ∈ chunks →
         linear dqm' !! k
         = Some (penalty_bias unavailable_hours inf
                   <$> range (H - duration inf + 1)))
    ∧ (∀ k, k ∉ keys chunks → linear dqm' !! k = linear dqm !! k).
Proof.
  unfold _add_deadline_and_unavailable_penalties, keys. revert dqm.
  induction chunks as [|[task inf] chunks IH]; intros dqm Hnd Hreg.
  { exists dqm. split_and!; [done..| |done].
    intros k inf' Hin. by apply elem_of_nil in Hin. }
  rewrite fmap_cons in Hnd. apply NoDup_cons in Hnd as [Hhd Hnd].
  cbn [for_each]. cbv beta iota zeta. rewrite combined_penalties_eq.
  destruct (Hreg task inf) as [Hn Hpos]; [apply list_elem_of_here|].
  rewrite set_linear_ok, bind_Ok.
  2:{ rewrite length_fmap, length_range, Z2Nat.id by done. done. }
  edestruct IH as (dqm' & -> & Hnc & Hq & Hin & Hout); [done| |].
  { intros k inf' Hk. cbn [num_cases with_linear].
    apply Hreg. by apply list_elem_of_further. }
  exists dqm'. split_and!; [done|done|done| |].
  - intros k inf' [Heq|Hk]%elem_of_cons.
    + injection Heq as -> ->. rewrite Hout by done.
      cbn [linear with_linear]. apply lookup_insert_eq.
    + by apply Hin.
  - intros k Hk. rewrite fmap_cons, not_elem_of_cons in Hk.
    destruct Hk as [Hne Hk]. rewrite Hout by done.
    cbn [linear with_linear]. by apply lookup_insert_ne.
Qed.

Lemma rewards_pass (base : info → Z → float) chunks H favorite_hours dqm :
  NoDup (keys chunks) →
  (∀ k inf, (k, inf) ∈ chunks →
     num_cases dqm !! k = Some (H - duration inf + 1)
     ∧ 0 ≤ H - duration inf + 1
     ∧ finite_rewards H inf
     ∧ linear dqm !! k = Some (base inf <$> range (H - duration inf + 1))) →
  ∃ dqm',
    _add_priority_rewards chunks H favorite_hours dqm = Ok dqm'
    ∧ num_cases dqm' = num_cases dqm
    ∧ quadratic dqm' = quadratic dqm
    ∧ (∀ k inf, (k, inf) ∈ chunks →
         linear dqm' !! k
         = Some ((λ t, add_rewards favorite_hours inf t (base inf t))
                   <$> range (H - duration inf + 1)))
    ∧ (∀ k, k ∉ keys chunks → linear dqm' !! k = linear dqm !! k).
Proof.
  unfold _add_priority_rewards, keys. revert dqm.
  induction chunks as [|[task inf] chunks IH]; intros dqm Hnd Hreg.
  { exists dqm. split_and!; [done..| |done].
    intros k inf' Hin. by apply elem_of_nil in Hin. }
  rewrite fmap_cons in Hnd. apply NoDup_cons in Hnd as [Hhd Hnd].
  cbn [for_each]. cbv beta iota zeta.
  destruct (Hreg task inf) as (Hn & Hpos & [rs Hrs] & Hcur);
    [apply list_elem_of_here|].
  rewrite Hrs, bind_Ok. apply rewards_Ok in Hrs as [-> _].
  rewrite combined_rewards_eq.
  rewrite (get_linear_ok _ _ _ Hcur), bind_Ok, zip_with_fmap_same.
  rewrite set_linear_ok, bind_Ok.
  2:{ rewrite length_fmap, length_range, Z2Nat.id by done. done. }
  edestruct IH as (dqm' & -> & Hnc & Hq & Hin & Hout); [done| |].
  { intros k inf' Hk. cbn [num_cases linear with_linear].
    rewrite lookup_insert_ne.
    - apply Hreg. by apply list_elem_of_further.
    - intros <-. destruct Hhd. apply list_elem_of_fmap. by exists (task, inf'). }
  exists dqm'. split_and!; [done|done|done| |].
  - intros k inf' [Heq|Hk]%elem_of_cons.
    + injection Heq as -> ->. rewrite Hout by done.
      cbn [linear with_linear]. apply lookup_insert_eq.
    + by apply Hin.
  - intros k Hk. rewrite fmap_cons, not_elem_of_cons in Hk.
    destruct Hk as [Hne Hk]. rewrite Hout by done.
    cbn [linear with_linear]. by apply lookup_insert_ne.
Qed.

(** What a pass that returned says about its chunks. *)
Lemma for_each_Ok {A S : Type} (Q : A → Prop) (I : S → Prop) (l : list A)
    (body : A → S → result S) s s' :
  (∀ x s s', I s → body x s = Ok s' → Q x ∧ I s') →
  I s → for_each l body s = Ok s' → Forall Q l ∧ I s'.
Proof.
  intros Hbody. revert s. induction l as [|x l IH]; intros s Hs; cbn [for_each].
  { intros [= <-]. split; [apply Forall_nil_2 | exact Hs]. }
  destruct (body x s) as [s1|e] eqn:Hstep; [|discriminate].
  rewrite bind_Ok. intros Hrest.
  destruct (Hbody x s s1 Hs Hstep) as [Hx Hs1].
  destruct (IH s1 Hs1 Hrest) as [Hl Hs'].
  split; [apply Forall_cons; split; [exact Hx | exact Hl] | exact Hs'].
Qed.

Lemma add_variables_admitted admits chunks H dqm dqm' :
  _add_variables admits chunks H dqm = Ok dqm' →
  Forall (λ c, admits (H - duration c.2 + 1) = true) chunks.
Proof.
  unfold _add_variables. intros Hrun.
  apply (for_each_Ok (λ c, admits (H - duration c.2 + 1) = true) (λ _, True))
    in Hrun as [Hall _]; [exact Hall| |exact I].
  intros [task inf] s s' _. cbv beta iota zeta. cbn [snd].
  unfold add_variable. destruct (num_cases s !! task); [discriminate|].
  destruct (admits (H - duration inf + 1)); [|discriminate].
  intros _. split; [reflexivity | exact I].
Qed.

Lemma penalties_pass_fits chunks H unavailable_hours dqm dqm' :
  _add_deadline_and_unavailable_penalties chunks H unavailable_hours dqm
  = Ok dqm' →
  (∀ k inf, (k, inf) ∈ chunks →
     num_cases dqm !! k = Some (H - duration inf + 1)) →
  Forall (λ c, 0 ≤ H - duration c.2 + 1) chunks.
Proof.
  unfold _add_deadline_and_unavailable_penalties. intros Hrun Hreg.
  apply (for_each_Ok
           (λ c, c ∈ chunks → 0 ≤ H - duration c.2 + 1)
           (λ s, num_cases s = num_cases dqm)) in Hrun as [Hall _];
    [|clear Hrun|reflexivity].
  { rewrite Forall_forall in Hall. apply Forall_forall. intros c Hc.
    by apply Hall. }
  intros [task inf] s s' Hs. cbv beta iota zeta.
  rewrite combined_penalties_eq. unfold set_linear. rewrite Hs.
  destruct (num_cases dqm !! task) as [n|] eqn:Hn; [|discriminate].
  case_decide as Hlen; [|discriminate]. intros [= <-]. cbn [num_cases].
  split; [|reflexivity]. intros Hc. cbn [snd].
  rewrite (Hreg task inf Hc) in Hn. injection Hn as <-.
  rewrite length_fmap, length_range in Hlen. lia.
Qed.

Lemma rewards_pass_finite chunks H favorite_hours dqm dqm' :
  _add_priority_rewards chunks H favorite_hours dqm = Ok dqm' →
  Forall (λ c, finite_rewards H c.2) chunks.
Proof.
  unfold _add_priority_rewards. intros Hrun.
  apply (for_each_Ok (λ c, finite_rewards H c.2) (λ _, True))
    in Hrun as [Hall _]; [exact Hall| |exact I].
  intros [task inf] s s' _. cbv beta iota zeta. cbn [snd].
  destruct (rewards inf H) as [rs|e] eqn:Hrs; [|discriminate].
  intros _. split; [by exists rs | exact I].
Qed.

(** ** The order on names and the overlap test *)

Lemma ltb_irrefl s : String.ltb s s = false.
Proof.
  unfold String.ltb. destruct (String.compare s s) eqn:Hc; [done| |done].
  pose proof (String.compare_antisym s s) as Ha. rewrite Hc in Ha. done.
Qed.

Lemma ltb_asym s1 s2 : String.ltb s1 s2 = true → String.ltb s2 s1 = false.
Proof.
  unfold String.ltb. rewrite (String.compare_antisym s2 s1).
  by destruct (String.compare s1 s2).
Qed.

Lemma ltb_total s1 s2 :
  s1 ≠ s2 → String.ltb s1 s2 = true ∨ String.ltb s2 s1 = true.
Proof.
  intros Hne. unfold String.ltb. rewrite (String.compare_antisym s2 s1).
  destruct (String.compare s1 s2) eqn:Hc; simpl; auto.
  apply String.compare_eq_iff in Hc. by destruct Hne.
Qed.

Lemma conflict_sym t1 dur1 t2 dur2 :
  conflict t1 dur1 t2 dur2 = conflict t2 dur2 t1 dur1.
Proof. unfold conflict. apply orb_comm. Qed.

Lemma conflict_overlap t1 dur1 t2 dur2 :
  0 < dur1 → 0 < dur2 →
  conflict t1 dur1 t2 dur2 = true ↔ t1 < t2 + dur2 ∧ t2 < t1 + dur1.
Proof.
  intros H1 H2. unfold conflict.
  rewrite orb_true_iff, !andb_true_iff, !Z.leb_le, !Z.ltb_lt. lia.
Qed.

(** ** The finished model *)

Lemma add_variables_outside admits chunks H dqm dqm' k :
  _add_variables admits chunks H dqm = Ok dqm' → k ∉ keys chunks →
  num_cases dqm' !! k = num_cases dqm !! k
  ∧ linear dqm' !! k = linear dqm !! k.
Proof.
  unfold _add_variables, keys. revert dqm.
  induction chunks as [|[task inf] chunks IH]; intros dqm; cbn [for_each].
  { by intros [= <-]. }
  cbv beta iota zeta.
  destruct (add_variable admits (H - duration inf + 1) task dqm)
    as [dqm1|e] eqn:Hstep; [|done].
  rewrite bind_Ok, fmap_cons, not_elem_of_cons. intros Hrest [Hne Hk].
  destruct (IH dqm1 Hrest Hk) as [-> ->].
  unfold add_variable in Hstep.
  destruct (num_cases dqm !! task); [done|].
  destruct (admits (H - duration inf + 1)); [|done].
  injection Hstep as <-. cbn [num_cases linear].
  by rewrite !lookup_insert_ne by done.
Qed.

Lemma init_passes admits tasks num_days unavailable_hours m favorite_hours
    chunks :
  _split_tasks m tasks = Ok chunks →
  __init__ admits tasks num_days unavailable_hours m favorite_hours
  = passes admits chunks (num_days * 24) unavailable_hours favorite_hours.
Proof. intros Hsplit. unfold __init__. by rewrite Hsplit. Qed.

(** The construction completes when every chunk is feasible and no reward
    overflows, and the finished model then holds exactly this. *)
Lemma passes_complete admits chunks H unavailable_hours favorite_hours :
  NoDup (keys chunks) →
  Forall (λ c, feasible admits H c.2) chunks →
  Forall (λ c, finite_rewards H c.2) chunks →
  ∃ dqm,
    passes admits chunks H unavailable_hours favorite_hours = Ok dqm
    ∧ (∀ k inf, (k, inf) ∈ chunks →
         num_cases dqm !! k = Some (H - duration inf + 1))
    ∧ (∀ k inf, (k, inf) ∈ chunks →
         linear dqm !! k
         = Some (combined_bias unavailable_hours favorite_hours inf
                   <$> range (H - duration inf + 1)))
    ∧ (∀ k, k ∉ keys chunks →
         num_cases dqm !! k = None ∧ linear dqm !! k = None)
    ∧ quadratic dqm = add_entries (ordered_pairs chunks ≫= pair_entries H) ∅.
Proof.
  intros Hnd Hfeas Hfin. unfold passes.
  rewrite Forall_forall in Hfeas. rewrite Forall_forall in Hfin.
  destruct (add_variables_ok admits chunks H empty_dqm)
    as (dqm1 & Hadd & Hq1 & Hn1 & _); [exact Hnd| |..].
  { intros k _. apply lookup_empty. }
  { apply Forall_forall. intros c Hc. by apply Hfeas. }
  rewrite Hadd, bind_Ok, constraints_pass, bind_Ok.
  2:{ intros k (c & -> & Hc)%list_elem_of_fmap. destruct c as [k inf].
      cbn [fst]. rewrite (Hn1 k inf Hc). by eexists. }
  destruct (penalties_pass chunks H unavailable_hours
              (with_quadratic
                 (add_entries (ordered_pairs chunks ≫= pair_entries H)
                    (quadratic dqm1)) dqm1))
    as (dqm3 & -> & Hn3 & Hq3 & Hl3 & Ho3); [exact Hnd| |].
  { intros k inf Hc. cbn [num_cases with_quadratic]. split; [by apply Hn1|].
    apply (Hfeas (k, inf) Hc). }
  rewrite bind_Ok.
  destruct (rewards_pass (penalty_bias unavailable_hours)
              chunks H favorite_hours dqm3)
    as (dqm4 & -> & Hn4 & Hq4 & Hl4 & Ho4); [exact Hnd| |].
  { intros k inf Hc. rewrite Hn3. cbn [num_cases with_quadratic].
    split_and!; [by apply Hn1 | apply (Hfeas (k, inf) Hc)
                | apply (Hfin (k, inf) Hc) | by apply Hl3]. }
  exists dqm4. split_and!; [reflexivity| | | |].
  - intros k inf Hc. rewrite Hn4, Hn3. cbn [num_cases with_quadratic].
    by apply Hn1.
  - intros k inf Hc. by apply Hl4.
  - intros k Hk.
    destruct (add_variables_outside _ _ _ _ _ k Hadd Hk) as [Hno Hlo].
    rewrite Hn4, Hn3, (Ho4 k Hk), (Ho3 k Hk).
    cbn [num_cases linear with_quadratic]. by rewrite Hno, Hlo.
  - rewrite Hq4, Hq3. cbn [quadratic with_quadratic]. by rewrite Hq1.
Qed.

(** Conversely, a construction that completed had only feasible chunks and
    finite rewards. *)
Lemma passes_feasible admits chunks H unavailable_hours favorite_hours dqm :
  NoDup (keys chunks) →
  passes admits chunks H unavailable_hours favorite_hours = Ok dqm →
  Forall (λ c, feasible admits H c.2) chunks
  ∧ Forall (λ c, finite_rewards H c.2) chunks.
Proof.
  intros Hnd. unfold passes.
  destruct (_add_variables admits chunks H empty_dqm) as [dqm1|e] eqn:Hadd;
    [|discriminate].
  rewrite bind_Ok.
  pose proof (add_variables_admitted _ _ _ _ _ Hadd) as Hadm.
  destruct (add_variables_ok admits chunks H empty_dqm)
    as (dqm1' & Hadd' & _ & Hn1 & _); [exact Hnd| |exact Hadm|].
  { intros k _. apply lookup_empty. }
  rewrite Hadd in Hadd'. injection Hadd' as <-.
  rewrite constraints_pass, bind_Ok.
  2:{ intros k (c & -> & Hc)%list_elem_of_fmap. destruct c as [k inf].
      cbn [fst]. rewrite (Hn1 k inf Hc). by eexists. }
  destruct (_add_deadline_and_unavailable_penalties chunks H
              unavailable_hours _) as [dqm3|e] eqn:Hpen; [|discriminate].
  rewrite bind_Ok. intros Hrew.
  apply penalties_pass_fits in Hpen; [|exact Hn1].
  apply rewards_pass_finite in Hrew. split; [|exact Hrew].
  rewrite Forall_forall in Hadm. rewrite Forall_forall in Hpen.
  apply Forall_forall. intros c Hc. split; [by apply Hpen | by apply Hadm].
Qed.

Lemma rewards_pass_Raise (base : info → Z → float) chunks H favorite_hours
    dqm e :
  NoDup (keys chunks) →
  (∀ k inf, (k, inf) ∈ chunks →
     num_cases dqm !! k = Some (H - duration inf + 1)
     ∧ 0 ≤ H - duration inf + 1
     ∧ linear dqm !! k = Some (base inf <$> range (H - duration inf + 1))) →
  _add_priority_rewards chunks H favorite_hours dqm = Raise e →
  e = OverflowError.
Proof.
  unfold _add_priority_rewards, keys. revert dqm.
  induction chunks as [|[task inf] chunks IH]; intros dqm Hnd Hreg;
    [discriminate|].
  rewrite fmap_cons in Hnd. apply NoDup_cons in Hnd as [Hhd Hnd].
  cbn [for_each]. cbv beta iota zeta.
  destruct (Hreg task inf) as (Hn & Hpos & Hcur); [apply list_elem_of_here|].
  destruct (rewards inf H) as [rs|e'] eqn:Hrs.
  - rewrite bind_Ok. apply rewards_Ok in Hrs as [-> _].
    rewrite combined_rewards_eq.
    rewrite (get_linear_ok _ _ _ Hcur), bind_Ok, zip_with_fmap_same.
    rewrite set_linear_ok, bind_Ok.
    2:{ rewrite length_fmap, length_range, Z2Nat.id by done. done. }
    apply IH; [exact Hnd|].
    intros k inf' Hk. cbn [num_cases linear with_linear].
    rewrite lookup_insert_ne.
    + apply Hreg. by apply list_elem_of_further.
    + intros <-. destruct Hhd. apply list_elem_of_fmap. by exists (task, inf').
  - intros [= <-]. by apply rewards_Raise in Hrs.
Qed.

(** With feasible chunks the only exception of the four passes is the
    [OverflowError] of line 81. *)
Lemma passes_Raise admits chunks H unavailable_hours favorite_hours e :
  NoDup (keys chunks) →
  Forall (λ c, feasible admits H c.2) chunks →
  passes admits chunks H unavailable_hours favorite_hours = Raise e →
  e = OverflowError.
Proof.
  intros Hnd Hfeas. unfold passes. rewrite Forall_forall in Hfeas.
  destruct (add_variables_ok admits chunks H empty_dqm)
    as (dqm1 & Hadd & Hq1 & Hn1 & _); [exact Hnd| |..].
  { intros k _. apply lookup_empty. }
  { apply Forall_forall. intros c Hc. by apply Hfeas. }
  rewrite Hadd, bind_Ok, constraints_pass, bind_Ok.
  2:{ intros k (c & -> & Hc)%list_elem_of_fmap. destruct c as [k inf].
      cbn [fst]. rewrite (Hn1 k inf Hc). by eexists. }
  destruct (penalties_pass chunks H unavailable_hours
              (with_quadratic
                 (add_entries (ordered_pairs chunks ≫= pair_entries H)
                    (quadratic dqm1)) dqm1))
    as (dqm3 & -> & Hn3 & Hq3 & Hl3 & Ho3); [exact Hnd| |].
  { intros k inf Hc. cbn [num_cases with_quadratic]. split; [by apply Hn1|].
    apply (Hfeas (k, inf) Hc). }
  rewrite bind_Ok.
  apply (rewards_pass_Raise (penalty_bias unavailable_hours)); [exact Hnd|].
  intros k inf Hc. rewrite Hn3. cbn [num_cases with_quadratic].
  split_and!; [by apply Hn1 | apply (Hfeas (k, inf) Hc) | by apply Hl3].
Qed.

Lemma init_completes admits tasks num_days unavailable_hours m
    favorite_hours chunks :
  _split_tasks m tasks = Ok chunks →
  Forall (λ c, feasible admits (num_days * 24) c.2) chunks →
  Forall (λ c, finite_rewards (num_days * 24) c.2) chunks →
  ∃ dqm,
    __init__ admits tasks num_days unavailable_hours m favorite_hours = Ok dqm.
Proof.
  intros Hsplit Hfeas Hfin. rewrite (init_passes _ _ _ _ _ _ _ Hsplit).
  pose proof (split_tasks_NoDup _ _ _ Hsplit) as Hnd.
  destruct (passes_complete admits chunks (num_days * 24) unavailable_hours
              favorite_hours Hnd Hfeas Hfin) as (dqm & Hrun & _).
  by exists dqm.
Qed.

(** The finished model, for every run of the constructor that returns. *)
Lemma init_model admits tasks num_days unavailable_hours m favorite_hours
    chunks dqm :
  _split_tasks m tasks = Ok chunks →
  __init__ admits tasks num_days unavailable_hours m favorite_hours = Ok dqm →
  (∀ k inf, (k, inf) ∈ chunks →
     num_cases dqm !! k = Some (num_days * 24 - duration inf + 1)
     ∧ 0 ≤ num_days * 24 - duration inf + 1
     ∧ finite_rewards (num_days * 24) inf
     ∧ linear dqm !! k
       = Some (combined_bias unavailable_hours favorite_hours inf
                 <$> range (num_days * 24 - duration inf + 1)))
  ∧ (∀ k, k ∉ keys chunks →
       num_cases dqm !! k = None ∧ linear dqm !! k = None)
  ∧ quadratic dqm
    = add_entries (ordered_pairs chunks ≫= pair_entries (num_days * 24)) ∅.
Proof.
  intros Hsplit Hinit. rewrite (init_passes _ _ _ _ _ _ _ Hsplit) in Hinit.
  pose proof (split_tasks_NoDup _ _ _ Hsplit) as Hnd.
  destruct (passes_feasible _ _ _ _ _ _ Hnd Hinit) as [Hfeas Hfin].
  destruct (passes_complete admits chunks (num_days * 24) unavailable_hours
              favorite_hours Hnd Hfeas Hfin)
    as (dqm' & Hrun & Hn & Hl & Hout & Hq).
  rewrite Hinit in Hrun. injection Hrun as <-.
  rewrite Forall_forall in Hfeas. rewrite Forall_forall in Hfin.
  split_and!; [|exact Hout|exact Hq].
  intros k inf Hc.
  split_and!; [by apply Hn | apply (Hfeas (k, inf) Hc)
              | apply (Hfin (k, inf) Hc) | by apply Hl].
Qed.

Lemma linear_float_fmap dqm k (f : Z → float) n t :
  linear dqm !! k = Some (f <$> range n) → 0 ≤ t < n →
  linear_float dqm k t = Some (f t).
Proof.
  intros Hl Ht. unfold linear_float. rewrite decide_True by lia.
  rewrite Hl. cbn. rewrite list_lookup_fmap, lookup_range by done. done.
Qed.

(** The bias of a start time of the finished model: the float the second
    pass computes from the one the first pass stored, the reward being the
    finite quotient of line 81. *)
Lemma init_linear_float admits tasks num_days unavailable_hours m
    favorite_hours chunks dqm task inf t :
  _split_tasks m tasks = Ok chunks →
  __init__ admits tasks num_days unavailable_hours m favorite_hours = Ok dqm →
  (task, inf) ∈ chunks →
  0 ≤ t < num_days * 24 - duration inf + 1 →
  true_div (priority inf) (t + 1) = Ok (reward_term inf t)
  ∧ linear_float dqm task t
    = Some (combined_bias unavailable_hours favorite_hours inf t).
Proof.
  intros Hsplit Hinit Hc Ht.
  destruct (init_model _ _ _ _ _ _ _ _ Hsplit Hinit) as (Hlin & _ & _).
  destruct (Hlin task inf Hc) as (_ & _ & [rs Hrs] & Hl). split.
  - apply rewards_Ok in Hrs as [_ Hdiv]. by apply Hdiv.
  - by apply (linear_float_fmap _ _ _ _ _ Hl).
Qed.

Lemma model_quadratic_case chunks H dqm u inf1 v inf2 t1 t2 :
  NoDup (keys chunks) →
  quadratic dqm = add_entries (ordered_pairs chunks ≫= pair_entries H) ∅ →
  (u, inf1) ∈ chunks → (v, inf2) ∈ chunks → u ≠ v →
  0 ≤ t1 < H - duration inf1 + 1 → 0 ≤ t2 < H - duration inf2 + 1 →
  quadratic_case dqm u t1 v t2
  = if conflict t1 (duration inf1) t2 (duration inf2) then Some 10%Q else None.
Proof.
  intros Hnd Hq H1 H2 Hne Ht1 Ht2. unfold quadratic_case.
  rewrite Hq, lookup_add_entries, lookup_empty. cbn [fst snd].
  destruct (conflict t1 (duration inf1) t2 (duration inf2)) eqn:Hc.
  - rewrite decide_True; [done|].
    destruct (ltb_total u v Hne) as [Hlt|Hlt]; [left|right];
      apply elem_of_conflict_entries.
    + exists inf1, inf2. done.
    + exists inf2, inf1. by rewrite conflict_sym.
  - rewrite decide_False; [done|].
    intros [Hin|Hin];
      apply elem_of_conflict_entries in Hin
        as (i1 & i2 & Hi1 & Hi2 & _ & _ & _ & Hc').
    + rewrite (dict_lookup_unique chunks u i1 inf1),
        (dict_lookup_unique chunks v i2 inf2) in Hc' by done. congruence.
    + rewrite (dict_lookup_unique chunks v i1 inf2),
        (dict_lookup_unique chunks u i2 inf1), conflict_sym in Hc' by done.
      congruence.
Qed.

(** ** The end-to-end example of the spec

    Task A of duration 2, deadline 5 and priority 1 with chunks of one hour
    over one day: two chunks with 24 start times each, the deadline penalty
    from start time 5 on, the conflict penalty 10 for equal start times and
    no entry for different ones. *)
Example end_to_end :
  ∃ dqm,
    __init__ admits_positive task_A 1 ∅ 1 ∅ = Ok dqm
    ∧ num_cases dqm !! "A_0"%string = Some 24
    ∧ num_cases dqm !! "A_1"%string = Some 24
    ∧ (∀ t, 0 ≤ t < 24 →
         ∃ r, true_div 1 (t + 1) = Ok r
           ∧ linear_float dqm "A_0"%string t
             = Some (float_add
                       (float_of_int ((if decide (5 ≤ t) then 10 else 0) + 0))
                       (float_add r (float_of_int 0))))
    ∧ (∀ t, 0 ≤ t < 24 →
         quadratic_case dqm "A_0"%string t "A_1"%string t = Some 10%Q)
    ∧ (∀ t0 t1, 0 ≤ t0 < 24 → 0 ≤ t1 < 24 → t0 ≠ t1 →
         quadratic_case dqm "A_0"%string t0 "A_1"%string t1 = None).
Proof.
  assert (_split_tasks 1 task_A = Ok chunks_A) as Hsplit
    by (vm_compute; reflexivity).
  pose proof (split_tasks_NoDup _ _ _ Hsplit) as Hnd.
  destruct (passes_complete admits_positive chunks_A (1 * 24) ∅ ∅ Hnd)
    as (dqm & Hinit & Hn & _ & _ & Hq); [feasible_chunks | finite_chunks |].
  rewrite <- (init_passes _ task_A 1 _ 1 _ _ Hsplit) in Hinit.
  set (inf := {| duration := 1; deadline := 5; priority := 1 |}).
  assert (("A_0"%string, inf) ∈ chunks_A) as H0 by apply list_elem_of_here.
  assert (("A_1"%string, inf) ∈ chunks_A) as H1
    by apply list_elem_of_further, list_elem_of_here.
  exists dqm.
  split_and!; [exact Hinit | apply (Hn _ inf H0) | apply (Hn _ inf H1) | ..].
  - intros t Ht.
    destruct (init_linear_float _ _ _ _ _ _ _ _ "A_0"%string inf t
                Hsplit Hinit H0) as [Hdiv Hb]; [cbn; lia|].
    exists (reward_term inf t). split; [exact Hdiv|]. rewrite Hb.
    unfold combined_bias, add_rewards, penalty_bias, deadline_term,
      unavailable_term, favorite_term. cbn [duration deadline priority inf].
    rewrite !(decide_False (P := t ∈ ∅)) by apply not_elem_of_empty.
    destruct (decide (t + 1 > 5)), (decide (5 ≤ t)); (reflexivity || lia).
  - intros t Ht.
    rewrite (model_quadratic_case chunks_A (1 * 24) dqm _ inf _ inf t t
               Hnd Hq H0 H1); [|discriminate|cbn; lia|cbn; lia].
    unfold conflict. cbn [duration inf].
    replace (t <=? t) with true by (symmetry; apply Z.leb_le; lia).
    replace (t <? t + 1) with true by (symmetry; apply Z.ltb_lt; lia).
    reflexivity.
  - intros t0 t1 Ht0 Ht1 Hne.
    rewrite (model_quadratic_case chunks_A (1 * 24) dqm _ inf _ inf t0 t1
               Hnd Hq H0 H1); [|discriminate|cbn; lia|cbn; lia].
    destruct (conflict t0 (duration inf) t1 (duration inf)) eqn:Hc;
      [|reflexivity].
    apply conflict_overlap in Hc; cbn in Hc |- *; lia.
Qed.

(** A priority beyond the range of [float]: line 81 raises, and so does the
    constructor. *)
Example init_overflows :
  __init__ admits_positive
    [("A"%string, {| duration := 1; deadline := 24; priority := 10 ^ 400 |})]
    1 ∅ 1 ∅
  = Raise OverflowError.
Proof. vm_compute. reflexivity. Qed.

(** * The claims *)

(** ** The bias of a start time *)

(** C10, as stated, fails: the stored bias is a float, and it is not the sum
    of the four terms.  At chunk A_0 of the example and start time 10, a
    favorite hour after the deadline, the terms are 10, 0, 1/11 and 1; the
    stored float denotes a number other than their sum, and it is not the
    float that [10 + 0 + 1/11 + 1], evaluated from left to right, gives
    either. *)
Lemma bias_is_not_the_sum_of_the_terms :
  let inf := {| duration := 1; deadline := 5; priority := 1 |} in
  _split_tasks 1 task_A = Ok chunks_A
  ∧ ("A_0"%string, inf) ∈ chunks_A
  ∧ ∃ dqm b x,
      __init__ admits_positive task_A 1 unavailable_3 1 favorite_10 = Ok dqm
      ∧ linear_float dqm "A_0"%string 10 = Some b
      ∧ linear_case dqm "A_0"%string 10 = Some x
      ∧ ¬ (x == inject_Z (if decide (10 + duration inf > deadline inf)%Z
                          then 10 else 0)
                + inject_Z (if decide (10%Z ∈ unavailable_3) then 10 else 0)
                + inject_Z (priority inf) / inject_Z (10 + 1)%Z
                + inject_Z (if decide (10%Z ∈ favorite_10) then 1 else 0))%Q
      ∧ b ≠ float_add
              (float_add (float_add (float_of_int 10) (float_of_int 0))
                 (quotient 1 (10 + 1)))
              (float_of_int 1).
Proof.
  cbv zeta.
  assert (_split_tasks 1 task_A = Ok chunks_A) as Hsplit
    by (vm_compute; reflexivity).
  split; [exact Hsplit|]. split; [apply list_elem_of_here|].
  destruct (init_completes admits_positive task_A 1 unavailable_3 1
              favorite_10 chunks_A Hsplit) as [dqm Hinit];
    [feasible_chunks | finite_chunks |].
  destruct (init_linear_float _ _ _ _ _ _ _ _ "A_0"%string
              {| duration := 1; deadline := 5; priority := 1 |} 10
              Hsplit Hinit) as [_ Hb]; [apply list_elem_of_here | cbn; lia |].
  exists dqm. eexists. eexists. split; [exact Hinit|]. split; [exact Hb|].
  split; [unfold linear_case; rewrite Hb; vm_compute; reflexivity|]. split.
  - intros Heq. vm_compute in Heq. discriminate Heq.
  - intros Heq. vm_compute in Heq. discriminate Heq.
Qed.

(** C10, amended: for every chunk and every start time [t] of its domain,
    the bias of the finished model is the float [(d + u) + (r + f)], each
    [+] of floats rounding to the nearest float: [d] is 10 when
    [t + duration > deadline] and [u] is 10 when [t] is an unavailable hour,
    added as integers by the first pass; [r] is the rounded quotient
    [priority / (t + 1)], which is finite, and [f] is 1 when [t] is a
    favorite hour.  The second pass reads back what the first pass stored
    and adds to it; no term is discarded or negated. *)
Theorem linear_bias_is_sum_of_four_terms admits tasks num_days
    unavailable_hours max_task_duration favorite_hours chunks dqm :
  _split_tasks max_task_duration tasks = Ok chunks →
  __init__ admits tasks num_days unavailable_hours max_task_duration
    favorite_hours = Ok dqm →
  ∀ task inf t,
    (task, inf) ∈ chunks →
    0 ≤ t < num_days * 24 - duration inf + 1 →
    ∃ r,
      true_div (priority inf) (t + 1) = Ok r
      ∧ linear_float dqm task t
        = Some (float_add
                  (float_of_int
                     ((if decide (t + duration inf > deadline inf)
                       then 10 else 0)
                      + (if decide (t ∈ unavailable_hours) then 10 else 0)))
                  (float_add r
                     (float_of_int
                        (if decide (t ∈ favorite_hours) then 1 else 0)))).
Proof.
  intros Hsplit Hinit task inf t Hin Ht.
  destruct (init_linear_float _ _ _ _ _ _ _ _ task inf t Hsplit Hinit Hin Ht)
    as [Hdiv Hb].
  exists (reward_term inf t). split; [exact Hdiv | exact Hb].
Qed.

Lemma linear_bias_is_sum_of_four_terms_witness :
  ∃ dqm,
    __init__ admits_positive task_A 1 unavailable_3 1 favorite_4 = Ok dqm
    ∧ ∀ task inf t,
      (task, inf) ∈ chunks_A →
      0 ≤ t < 1 * 24 - duration inf + 1 →
      ∃ r,
        true_div (priority inf) (t + 1) = Ok r
        ∧ linear_float dqm task t
          = Some (float_add
                    (float_of_int
                       ((if decide (t + duration inf > deadline inf)
                         then 10 else 0)
                        + (if decide (t ∈ unavailable_3) then 10 else 0)))
                    (float_add r
                       (float_of_int
                          (if decide (t ∈ favorite_4) then 1 else 0)))).
Proof.
  destruct (init_completes admits_positive task_A 1 unavailable_3 1
              favorite_4 chunks_A)
    as [dqm Hinit];
    [vm_compute; reflexivity | feasible_chunks | finite_chunks |].
  exists dqm. split; [exact Hinit|].
  apply (linear_bias_is_sum_of_four_terms admits_positive task_A 1
           unavailable_3 1 favorite_4 chunks_A dqm).
  - vm_compute. reflexivity.
  - exact Hinit.
Defined.



(** C5: for every chunk of a finished model, the variable is registered with
    [horizon - duration + 1] cases, [horizon = num_days * 24]; its start
    times are [0 .. horizon - duration] in ascending order, and the bias
    vector has one entry for each. *)
Theorem registered_domain admits tasks num_days unavailable_hours
    max_task_duration favorite_hours chunks dqm :
  _split_tasks max_task_duration tasks = Ok chunks →
  __init__ admits tasks num_days unavailable_hours max_task_duration
    favorite_hours = Ok dqm →
  ∀ task inf,
    (task, inf) ∈ chunks →
    let horizon := num_days * 24 in
    let domain := range (horizon - duration inf + 1) in
    num_cases dqm !! task = Some (horizon - duration inf + 1)
    ∧ Z.of_nat (length domain) = horizon - duration inf + 1
    ∧ (∀ i t, domain !! i = Some t
              ↔ t = Z.of_nat i ∧ 0 ≤ t ≤ horizon - duration inf)
    ∧ (∀ t, is_Some (linear_float dqm task t)
            ↔ 0 ≤ t ≤ horizon - duration inf).
Proof.
  intros Hsplit Hinit task inf Hin horizon domain.
  destruct (init_model _ _ _ _ _ _ _ _ Hsplit Hinit) as (Hlin & _ & _).
  destruct (Hlin task inf Hin) as (Hn & Hpos & _ & Hl).
  fold horizon in Hn, Hpos, Hl. split_and!.
  - exact Hn.
  - unfold domain. rewrite length_range. lia.
  - intros i t. unfold domain, range. rewrite lookup_seqZ. lia.
  - intros t. unfold linear_float. rewrite Hl.
    destruct (decide (0 ≤ t)) as [H0|H0].
    + cbn. rewrite list_lookup_fmap, fmap_is_Some.
      unfold range. split.
      * intros [t' [_ Ht']%lookup_seqZ]. lia.
      * intros Ht. exists t. apply lookup_seqZ. lia.
    + split; [intros [? ?]; done | lia].
Qed.

Lemma registered_domain_witness :
  ∃ dqm,
    __init__ admits_positive task_A 1 unavailable_3 1 favorite_4 = Ok dqm
    ∧ ∀ task inf,
      (task, inf) ∈ chunks_A →
      let horizon := 1 * 24 in
      let domain := range (horizon - duration inf + 1) in
      num_cases dqm !! task = Some (horizon - duration inf + 1)
      ∧ Z.of_nat (length domain) = horizon - duration inf + 1
      ∧ (∀ i t, domain !! i = Some t
                ↔ t = Z.of_nat i ∧ 0 ≤ t ≤ horizon - duration inf)
      ∧ (∀ t, is_Some (linear_float dqm task t)
              ↔ 0 ≤ t ≤ horizon - duration inf).
Proof.
  destruct (init_completes admits_positive task_A 1 unavailable_3 1
              favorite_4 chunks_A)
    as [dqm Hinit];
    [vm_compute; reflexivity | feasible_chunks | finite_chunks |].
  exists dqm. split; [exact Hinit|].
  apply (registered_domain admits_positive task_A 1 unavailable_3 1
           favorite_4 chunks_A dqm).
  - vm_compute. reflexivity.
  - exact Hinit.
Defined.

(** C2: in a finished model, for two distinct chunks of positive durations
    and start times [t1], [t2] of their domains, the entry for [(t1, t2)] is
    the penalty 10 if and only if [t1 < t2 + dur2] and [t2 < t1 + dur1];
    otherwise there is no entry, in particular when the chunks are back to
    back, [t1 + dur1 = t2]. *)
Theorem overlap_penalty admits tasks num_days unavailable_hours
    max_task_duration favorite_hours chunks dqm :
  _split_tasks max_task_duration tasks = Ok chunks →
  __init__ admits tasks num_days unavailable_hours max_task_duration
    favorite_hours = Ok dqm →
  ∀ task1 info1 task2 info2 t1 t2,
    (task1, info1) ∈ chunks → (task2, info2) ∈ chunks →
    task1 ≠ task2 →
    0 < duration info1 → 0 < duration info2 →
    0 ≤ t1 < num_days * 24 - duration info1 + 1 →
    0 ≤ t2 < num_days * 24 - duration info2 + 1 →
    (quadratic_case dqm task1 t1 task2 t2 = Some 10%Q
     ↔ t1 < t2 + duration info2 ∧ t2 < t1 + duration info1)
    ∧ (quadratic_case dqm task1 t1 task2 t2 = Some 10%Q
       ∨ quadratic_case dqm task1 t1 task2 t2 = None)
    ∧ (t1 + duration info1 = t2 →
       quadratic_case dqm task1 t1 task2 t2 = None).
Proof.
  intros Hsplit Hinit.
  destruct (init_model _ _ _ _ _ _ _ _ Hsplit Hinit) as (_ & _ & Hq).
  intros task1 info1 task2 info2 t1 t2 Hin1 Hin2 Hne Hd1 Hd2 Ht1 Ht2.
  pose proof (split_tasks_NoDup _ _ _ Hsplit) as Hnd.
  rewrite (model_quadratic_case chunks (num_days * 24) dqm task1 info1
             task2 info2 t1 t2 Hnd Hq Hin1 Hin2 Hne Ht1 Ht2).
  pose proof (conflict_overlap t1 (duration info1) t2 (duration info2)
                Hd1 Hd2) as Hov.
  destruct (conflict t1 (duration info1) t2 (duration info2)).
  - split_and!; [tauto | by left |].
    intros Hback. assert (t1 < t2 + duration info2 ∧ t2 < t1 + duration info1)
      by tauto. lia.
  - split_and!; [|by right|reflexivity].
    split; [discriminate|]. intros Hlt. apply Hov in Hlt. discriminate Hlt.
Qed.

Lemma overlap_penalty_witness :
  ∃ dqm,
    __init__ admits_positive task_A 1 unavailable_3 1 favorite_4 = Ok dqm
    ∧ ∀ task1 info1 task2 info2 t1 t2,
      (task1, info1) ∈ chunks_A → (task2, info2) ∈ chunks_A →
      task1 ≠ task2 →
      0 < duration info1 → 0 < duration info2 →
      0 ≤ t1 < 1 * 24 - duration info1 + 1 →
      0 ≤ t2 < 1 * 24 - duration info2 + 1 →
      (quadratic_case dqm task1 t1 task2 t2 = Some 10%Q
       ↔ t1 < t2 + duration info2 ∧ t2 < t1 + duration info1)
      ∧ (quadratic_case dqm task1 t1 task2 t2 = Some 10%Q
         ∨ quadratic_case dqm task1 t1 task2 t2 = None)
      ∧ (t1 + duration info1 = t2 →
         quadratic_case dqm task1 t1 task2 t2 = None).
Proof.
  destruct (init_completes admits_positive task_A 1 unavailable_3 1
              favorite_4 chunks_A)
    as [dqm Hinit];
    [vm_compute; reflexivity | feasible_chunks | finite_chunks |].
  exists dqm. split; [exact Hinit|].
  apply (overlap_penalty admits_positive task_A 1 unavailable_3 1
           favorite_4 chunks_A dqm).
  - vm_compute. reflexivity.
  - exact Hinit.
Defined.

(** ** The pairs of chunks that are penalized *)

Lemma elem_of_ordered_pairs chunks c1 c2 :
  (c1, c2) ∈ ordered_pairs chunks
  ↔ c1 ∈ chunks ∧ c2 ∈ chunks ∧ String.ltb c1.1 c2.1 = true.
Proof.
  unfold ordered_pairs. rewrite list_elem_of_bind. split.
  - intros (x1 & (x2 & Hp & H2)%list_elem_of_bind & H1).
    destruct (String.ltb x1.1 x2.1) eqn:Hlt; [|by apply elem_of_nil in Hp].
    apply list_elem_of_singleton in Hp. by injection Hp as -> ->.
  - intros (H1 & H2 & Hlt). exists c1. split; [|done].
    apply list_elem_of_bind. exists c2. split; [|done].
    rewrite Hlt. by apply list_elem_of_singleton.
Qed.

Lemma NoDup_ordered_pairs chunks : NoDup chunks → NoDup (ordered_pairs chunks).
Proof.
  intros Hnd. unfold ordered_pairs. apply NoDup_bind; [| |done].
  - intros x1 x2 [y1 y2] _ _ (a & Ha & _)%list_elem_of_bind
      (b & Hb & _)%list_elem_of_bind.
    destruct (String.ltb x1.1 a.1); [|by apply elem_of_nil in Ha].
    destruct (String.ltb x2.1 b.1); [|by apply elem_of_nil in Hb].
    apply list_elem_of_singleton in Ha, Hb. congruence.
  - intros x1 _. apply NoDup_bind; [| |done].
    + intros a b [y1 y2] _ _ Ha Hb.
      destruct (String.ltb x1.1 a.1); [|by apply elem_of_nil in Ha].
      destruct (String.ltb x1.1 b.1); [|by apply elem_of_nil in Hb].
      apply list_elem_of_singleton in Ha, Hb. congruence.
    + intros a _. destruct (String.ltb x1.1 a.1);
        [apply NoDup_singleton | apply NoDup_nil_2].
Qed.

(** C4: the penalizer runs its body once for each pair of [ordered_pairs],
    a list without repetition that holds exactly one of the two orders of
    every two distinct chunks and never a chunk with itself; the overlap test
    and the stored penalties do not depend on the order of the pair. *)
Theorem each_pair_once chunks :
  NoDup (keys chunks) →
  (∀ (S : Type) (body : string * info → string * info → S → result S) s,
     for_each_pair chunks body s
     = for_each (ordered_pairs chunks) (λ p, body p.1 p.2) s)
  ∧ (∀ H dqm,
       _add_constraints_and_penalties chunks H dqm
       = for_each (ordered_pairs chunks) (λ p, penalize_pair H p.1 p.2) dqm)
  ∧ NoDup (ordered_pairs chunks)
  ∧ (∀ c1 c2, (c1, c2) ∈ ordered_pairs chunks →
       c1 ∈ chunks ∧ c2 ∈ chunks ∧ c1 ≠ c2
       ∧ (c2, c1) ∉ ordered_pairs chunks)
  ∧ (∀ c1 c2, c1 ∈ chunks → c2 ∈ chunks → c1 ≠ c2 →
       (c1, c2) ∈ ordered_pairs chunks ∨ (c2, c1) ∈ ordered_pairs chunks)
  ∧ (∀ t1 dur1 t2 dur2,
       conflict t1 dur1 t2 dur2 = conflict t2 dur2 t1 dur1)
  ∧ (∀ H dqm,
       (∀ k, k ∈ keys chunks → is_Some (num_cases dqm !! k)) →
       quadratic dqm = ∅ →
       ∃ dqm', _add_constraints_and_penalties chunks H dqm = Ok dqm'
         ∧ ∀ u tu v tv,
             quadratic_case dqm' u tu v tv = quadratic_case dqm' v tv u tu).
Proof.
  intros Hnd. split_and!.
  - intros S body s. apply for_each_pair_ordered.
  - intros H dqm. apply for_each_pair_ordered.
  - apply NoDup_ordered_pairs. by eapply NoDup_fmap_1.
  - intros c1 c2 (H1 & H2 & Hlt)%elem_of_ordered_pairs. split_and!; [done..| |].
    + intros ->. by rewrite ltb_irrefl in Hlt.
    + intros (_ & _ & Hlt')%elem_of_ordered_pairs.
      apply ltb_asym in Hlt. congruence.
  - intros [k1 i1] [k2 i2] H1 H2 Hne. rewrite !elem_of_ordered_pairs.
    cbn [fst]. destruct (ltb_total k1 k2) as [Hlt|Hlt]; [|by left|by right].
    intros ->. destruct Hne. f_equal. by eapply dict_lookup_unique.
  - apply conflict_sym.
  - intros H dqm Hreg Hq. rewrite constraints_pass by done.
    eexists. split; [done|]. intros u tu v tv.
    unfold quadratic_case. cbn [quadratic with_quadratic].
    rewrite !lookup_add_entries, Hq, !lookup_empty. cbn [fst snd].
    repeat match goal with |- context [decide ?P] => destruct (decide P) end;
      try done; tauto.
Qed.

Lemma each_pair_once_witness :
  (∀ (S : Type) (body : string * info → string * info → S → result S) s,
     for_each_pair chunks_A body s
     = for_each (ordered_pairs chunks_A) (λ p, body p.1 p.2) s)
  ∧ (∀ H dqm,
       _add_constraints_and_penalties chunks_A H dqm
       = for_each (ordered_pairs chunks_A) (λ p, penalize_pair H p.1 p.2) dqm)
  ∧ NoDup (ordered_pairs chunks_A)
  ∧ (∀ c1 c2, (c1, c2) ∈ ordered_pairs chunks_A →
       c1 ∈ chunks_A ∧ c2 ∈ chunks_A ∧ c1 ≠ c2
       ∧ (c2, c1) ∉ ordered_pairs chunks_A)
  ∧ (∀ c1 c2, c1 ∈ chunks_A → c2 ∈ chunks_A → c1 ≠ c2 →
       (c1, c2) ∈ ordered_pairs chunks_A ∨ (c2, c1) ∈ ordered_pairs chunks_A)
  ∧ (∀ t1 dur1 t2 dur2,
       conflict t1 dur1 t2 dur2 = conflict t2 dur2 t1 dur1)
  ∧ (∀ H dqm,
       (∀ k, k ∈ keys chunks_A → is_Some (num_cases dqm !! k)) →
       quadratic dqm = ∅ →
       ∃ dqm', _add_constraints_and_penalties chunks_A H dqm = Ok dqm'
         ∧ ∀ u tu v tv,
             quadratic_case dqm' u tu v tv = quadratic_case dqm' v tv u tu).
Proof.
  apply (each_pair_once chunks_A).
  apply (bool_decide_unpack _). vm_compute. exact I.
Defined.

(** ** The chunks of one task *)

Lemma sum_durations_app cs1 cs2 :
  sum_durations (cs1 ++ cs2) = sum_durations cs1 + sum_durations cs2.
Proof.
  unfold sum_durations. induction cs1 as [|c cs1 IH]; [done|].
  cbn in *. rewrite IH. lia.
Qed.

Lemma sum_durations_full task m dl pr (l : list Z) :
  sum_durations
    ((λ i, (chunk_name task i,
            {| duration := m; deadline := dl; priority := pr |})) <$> l)
  = Z.of_nat (length l) * m.
Proof.
  unfold sum_durations. induction l as [|i l IH]; [done|].
  cbn [fmap list_fmap foldr length snd duration] in *. rewrite IH. lia.
Qed.

(** C3: with a positive maximal duration [m] and distinct task names, the
    splitter returns, task after task, the chunks of the spec.  For a task of
    duration [d > 0] these are [d // m] chunks of duration [m] at the indices
    [0 .. d // m - 1], then one chunk of duration [d % m] at index [d // m]
    exactly when [d % m > 0]; their durations sum to [d], each lies in
    [(0, m]], and each chunk has the deadline and the priority of its
    task. *)
Theorem split_tasks_chunks m tasks :
  0 < m → NoDup (keys tasks) →
  _split_tasks m tasks = Ok (tasks ≫= spec_chunks m)
  ∧ ∀ task inf,
      (task, inf) ∈ tasks → 0 < duration inf →
      let d := duration inf in
      let extra := if decide (d `mod` m > 0) then 1 else 0 in
      let cs := spec_chunks m (task, inf) in
      keys cs = chunk_name task <$> seqZ 0 (d `div` m + extra)
      ∧ (∀ i, 0 ≤ i < d `div` m →
           cs !! Z.to_nat i
           = Some (chunk_name task i,
                   {| duration := m; deadline := deadline inf;
                      priority := priority inf |}))
      ∧ (d `mod` m > 0 →
           cs !! Z.to_nat (d `div` m)
           = Some (chunk_name task (d `div` m),
                   {| duration := d `mod` m; deadline := deadline inf;
                      priority := priority inf |}))
      ∧ Z.of_nat (length cs) = d `div` m + extra
      ∧ sum_durations cs = d
      ∧ Forall (λ c, 0 < duration c.2 ≤ m
                     ∧ deadline c.2 = deadline inf
                     ∧ priority c.2 = priority inf) cs.
Proof.
  intros Hm Hnd. split; [apply split_tasks_spec_chunks; [lia | done]|].
  intros task inf _ Hd d extra cs.
  assert (0 ≤ d `div` m) as Hq by (apply Z.div_pos; lia).
  pose proof (Z.mod_pos_bound d m Hm) as Hr.
  pose proof (Z.div_mod d m ltac:(lia)) as Hdm.
  unfold cs, spec_chunks, extra. fold d.
  set (full := (λ i, (chunk_name task i,
                      {| duration := m; deadline := deadline inf;
                         priority := priority inf |})) <$> seqZ 0 (d `div` m)).
  assert (length full = Z.to_nat (d `div` m)) as Hlen
    by (unfold full; by rewrite length_fmap, length_seqZ).
  split_and!.
  - rewrite keys_app. unfold keys, full. rewrite <- list_fmap_compose.
    destruct (decide (d `mod` m > 0)).
    + rewrite seqZ_app by lia. rewrite fmap_app. by f_equal.
    + rewrite Z.add_0_r. cbn. by rewrite app_nil_r.
  - intros i Hi. rewrite lookup_app_l by lia.
    unfold full. rewrite list_lookup_fmap, lookup_seqZ_lt by lia.
    cbn. do 3 f_equal. lia.
  - intros Hrem. rewrite decide_True by done.
    rewrite lookup_app_r by lia. rewrite Hlen, Nat.sub_diag. done.
  - rewrite length_app, Hlen. destruct (decide (d `mod` m > 0)); cbn; lia.
  - rewrite sum_durations_app. unfold full.
    rewrite sum_durations_full, length_seqZ.
    destruct (decide (d `mod` m > 0)); unfold sum_durations; cbn; lia.
  - apply Forall_app. split.
    + unfold full. apply Forall_fmap, Forall_forall. intros i _. cbn. lia.
    + destruct (decide (d `mod` m > 0)); [|apply Forall_nil_2].
      apply Forall_singleton. cbn. lia.
Qed.

Lemma split_tasks_chunks_witness :
  _split_tasks 1 task_A = Ok (task_A ≫= spec_chunks 1)
  ∧ ∀ task inf,
      (task, inf) ∈ task_A → 0 < duration inf →
      let d := duration inf in
      let extra := if decide (d `mod` 1 > 0) then 1 else 0 in
      let cs := spec_chunks 1 (task, inf) in
      keys cs = chunk_name task <$> seqZ 0 (d `div` 1 + extra)
      ∧ (∀ i, 0 ≤ i < d `div` 1 →
           cs !! Z.to_nat i
           = Some (chunk_name task i,
                   {| duration := 1; deadline := deadline inf;
                      priority := priority inf |}))
      ∧ (d `mod` 1 > 0 →
           cs !! Z.to_nat (d `div` 1)
           = Some (chunk_name task (d `div` 1),
                   {| duration := d `mod` 1; deadline := deadline inf;
                      priority := priority inf |}))
      ∧ Z.of_nat (length cs) = d `div` 1 + extra
      ∧ sum_durations cs = d
      ∧ Forall (λ c, 0 < duration c.2 ≤ 1
                     ∧ deadline c.2 = deadline inf
                     ∧ priority c.2 = priority inf) cs.
Proof.
  apply (split_tasks_chunks 1 task_A).
  - lia.
  - apply (bool_decide_unpack _). vm_compute. exact I.
Defined.

(** ** A maximal duration that is not positive *)

(** C7, as stated, fails: with the maximal duration -1 the splitter raises
    nothing and returns no chunk, so "every configuration with
    [max_chunk_duration ≤ 0] fails" does not hold. *)
Lemma negative_max_duration_is_accepted :
  -1 ≤ 0
  ∧ _split_tasks (-1) task_A = Ok []
  ∧ ¬ (∀ m tasks, m ≤ 0 → ∃ e, _split_tasks m tasks = Raise e).
Proof.
  split; [lia|]. split; [reflexivity|].
  intros Hfail. destruct (Hfail (-1) task_A) as [e He]; [lia|].
  discriminate He.
Qed.

(** C7, amended: for a maximal duration [m ≤ 0] the only failure is Python's
    [ZeroDivisionError], raised when [m = 0] and there is at least one task,
    and then before any model work: the whole construction fails with it.
    With [m = 0] and no task, and with [m < 0], the splitter returns; for
    [m < 0] and tasks of positive duration it returns no chunk. *)
Theorem split_tasks_nonpositive_max m tasks :
  m ≤ 0 →
  (m = 0 → tasks ≠ [] →
     _split_tasks m tasks = Raise ZeroDivisionError
     ∧ ∀ admits num_days unavailable_hours favorite_hours,
         __init__ admits tasks num_days unavailable_hours m favorite_hours
         = Raise ZeroDivisionError)
  ∧ (m = 0 → tasks = [] → _split_tasks m tasks = Ok [])
  ∧ (m < 0 → ∃ chunks, _split_tasks m tasks = Ok chunks)
  ∧ (m < 0 → Forall (λ c, 0 < duration c.2) tasks →
       _split_tasks m tasks = Ok [])
  ∧ (∀ e, _split_tasks m tasks = Raise e →
       e = ZeroDivisionError ∧ m = 0 ∧ tasks ≠ []).
Proof.
  intros Hm. split_and!.
  - intros -> Hne. destruct tasks as [|entry tasks]; [done|].
    split; [apply split_tasks_zero|].
    intros admits num_days unavailable_hours favorite_hours.
    unfold __init__. by rewrite split_tasks_zero.
  - by intros -> ->.
  - intros Hneg. apply split_tasks_total. lia.
  - intros Hneg. by apply split_tasks_negative.
  - intros e He. destruct (decide (m = 0)) as [->|Hne].
    + destruct tasks as [|entry tasks]; [done|].
      rewrite split_tasks_zero in He. by injection He as <-.
    + destruct (split_tasks_total m tasks Hne) as [chunks Hok]. congruence.
Qed.

Lemma split_tasks_nonpositive_max_witness :
  (0 = 0 → task_A ≠ [] →
     _split_tasks 0 task_A = Raise ZeroDivisionError
     ∧ ∀ admits num_days unavailable_hours favorite_hours,
         __init__ admits task_A num_days unavailable_hours 0 favorite_hours
         = Raise ZeroDivisionError)
  ∧ (0 = 0 → task_A = [] → _split_tasks 0 task_A = Ok [])
  ∧ (0 < 0 → ∃ chunks, _split_tasks 0 task_A = Ok chunks)
  ∧ (0 < 0 → Forall (λ c, 0 < duration c.2) task_A →
       _split_tasks 0 task_A = Ok [])
  ∧ (∀ e, _split_tasks 0 task_A = Raise e →
       e = ZeroDivisionError ∧ 0 = 0 ∧ task_A ≠ []).
Proof. apply (split_tasks_nonpositive_max 0 task_A). lia. Defined.

(** ** A chunk longer than the horizon *)

Lemma first_refused (admits : Z → bool) H (chunks : list (string * info)) :
  Exists (λ c, admits (H - duration c.2 + 1) = false) chunks →
  ∃ pre c post,
    chunks = pre ++ c :: post
    ∧ Forall (λ c, admits (H - duration c.2 + 1) = true) pre
    ∧ admits (H - duration c.2 + 1) = false.
Proof.
  induction chunks as [|c chunks IH]; intros Hex.
  { by apply Exists_nil in Hex. }
  destruct (admits (H - duration c.2 + 1)) eqn:Hc.
  - apply Exists_cons in Hex as [Hex|Hex]; [congruence|].
    destruct (IH Hex) as (pre & c' & post & -> & Hpre & Hc').
    exists (c :: pre), c', post. split_and!; [reflexivity| |exact Hc'].
    apply Forall_cons. by split.
  - exists [], c, chunks.
    split_and!; [reflexivity | apply Forall_nil_2 | exact Hc].
Qed.

Lemma add_variables_zero admits chunks H dqm dqm' :
  _add_variables admits chunks H dqm = Ok dqm' →
  ∀ k biases,
    linear dqm' !! k = Some biases →
    linear dqm !! k = Some biases ∨ Forall (λ b, b = float_of_int 0) biases.
Proof.
  unfold _add_variables.
  apply (for_each_invariant
           (λ a b, ∀ k biases,
              linear b !! k = Some biases →
              linear a !! k = Some biases
              ∨ Forall (λ b, b = float_of_int 0) biases)).
  - intros s k biases Hk. by left.
  - intros a b c Hab Hbc k biases Hk.
    destruct (Hbc k biases Hk) as [Hb|Hz]; [by apply Hab | by right].
  - intros [task inf] s s'. cbv beta iota zeta. unfold add_variable.
    destruct (num_cases s !! task); [discriminate|].
    destruct (admits (H - duration inf + 1)); [|discriminate].
    intros [= <-] k biases. cbn [linear].
    destruct (decide (k = task)) as [->|Hne].
    + rewrite lookup_insert_eq. intros [= <-]. right.
      by apply Forall_replicate.
    + rewrite lookup_insert_ne by done. by left.
Qed.

(** C6, as stated, fails: for a chunk of duration 25 on a horizon of 24
    hours the construction does fail, but with the [ValueError] of the model,
    which refuses the cardinality 0; it is not an [InfeasibleTaskError]. *)
Lemma infeasible_chunk_raises_ValueError :
  1 * 24 < 25
  ∧ _split_tasks 25 task_long = Ok chunks_long
  ∧ 1 * 24 - 25 + 1 ≤ 0
  ∧ __init__ admits_positive task_long 1 ∅ 25 ∅ = Raise ValueError
  ∧ __init__ admits_positive task_long 1 ∅ 25 ∅ ≠ Raise InfeasibleTaskError.
Proof.
  split; [lia|]. split; [vm_compute; reflexivity|]. split; [lia|].
  assert (__init__ admits_positive task_long 1 ∅ 25 ∅ = Raise ValueError)
    as Hrun by (vm_compute; reflexivity).
  split; [exact Hrun|]. rewrite Hrun. discriminate.
Qed.

(** C6, amended: for a chunk whose duration exceeds the horizon,
    [_add_variables] checks nothing itself: it passes the cardinality
    [horizon - duration + 1 ≤ 0] to the model as computed, never clamped.
    The model refuses a cardinality that is not positive, so the
    construction fails with the model's [ValueError], at the first chunk [c]
    whose cardinality the model refuses, which is that chunk or one before
    it.  At that call the chunks before [c] are the registered variables, so
    the variable of the long chunk is not registered, and no penalty has
    been computed: the model has no penalty entry and only zero biases. *)
Theorem infeasible_chunk_is_refused_by_the_model admits tasks num_days
    unavailable_hours max_task_duration favorite_hours chunks task inf :
  (∀ n, n ≤ 0 → admits n = false) →
  _split_tasks max_task_duration tasks = Ok chunks →
  (task, inf) ∈ chunks →
  num_days * 24 < duration inf →
  let horizon := num_days * 24 in
  horizon - duration inf + 1 ≤ 0
  ∧ ∃ pre c post dqm,
      chunks = pre ++ c :: post
      ∧ (c = (task, inf) ∨ (task, inf) ∈ post)
      ∧ _add_variables admits pre horizon empty_dqm = Ok dqm
      ∧ (∀ k, is_Some (num_cases dqm !! k) ↔ k ∈ keys pre)
      ∧ num_cases dqm !! task = None
      ∧ quadratic dqm = ∅
      ∧ (∀ k biases, linear dqm !! k = Some biases →
           Forall (λ b, b = float_of_int 0) biases)
      ∧ add_variable admits (horizon - duration c.2 + 1) c.1 dqm
        = Raise ValueError
      ∧ _add_variables admits chunks horizon empty_dqm = Raise ValueError
      ∧ __init__ admits tasks num_days unavailable_hours max_task_duration
          favorite_hours = Raise ValueError.
Proof.
  intros Hrefuse Hsplit Hin Hlong horizon.
  assert (horizon - duration inf + 1 ≤ 0) as Hn by (unfold horizon; lia).
  split; [exact Hn|].
  pose proof (split_tasks_NoDup _ _ _ Hsplit) as Hnd.
  destruct (first_refused admits horizon chunks)
    as (pre & c & post & Heq & Hpre & Hc).
  { apply Exists_exists. exists (task, inf). split; [exact Hin|].
    cbn [snd]. by apply Hrefuse. }
  assert (NoDup (keys pre) ∧ c.1 ∉ keys pre) as [Hndpre Hcpre].
  { rewrite Heq in Hnd. unfold keys in Hnd |- *.
    rewrite fmap_app, fmap_cons in Hnd.
    apply NoDup_app in Hnd as (Hnd1 & Hdisj & _). split; [exact Hnd1|].
    intros Hk. apply (Hdisj _ Hk). apply list_elem_of_here. }
  assert (task ∉ keys pre) as Htask.
  { intros Hk. apply list_elem_of_fmap in Hk as ([k inf'] & Hk & Hc').
    cbn in Hk. subst k.
    assert ((task, inf') ∈ chunks) as Hin'
      by (rewrite Heq; apply elem_of_app; by left).
    rewrite (dict_lookup_unique chunks task inf' inf Hnd Hin' Hin) in Hc'.
    rewrite Forall_forall in Hpre. pose proof (Hpre _ Hc') as Hadm.
    cbn [snd] in Hadm. rewrite (Hrefuse _ Hn) in Hadm. discriminate Hadm. }
  destruct (add_variables_ok admits pre horizon empty_dqm)
    as (dqm & Hadd & Hq & Hnin & Hnout); [exact Hndpre| |exact Hpre|].
  { intros k _. apply lookup_empty. }
  assert (add_variable admits (horizon - duration c.2 + 1) c.1 dqm
          = Raise ValueError) as Hstep.
  { apply add_variable_refused; [|exact Hc].
    rewrite (Hnout _ Hcpre). apply lookup_empty. }
  assert (_add_variables admits chunks horizon empty_dqm = Raise ValueError)
    as Hraise.
  { rewrite Heq. unfold _add_variables in Hadd |- *.
    rewrite for_each_app, Hadd, bind_Ok. cbn [for_each].
    destruct c as [k infc]. cbn [fst snd] in Hstep. cbv beta iota zeta.
    by rewrite Hstep. }
  exists pre, c, post, dqm. split_and!.
  - exact Heq.
  - rewrite Heq in Hin. apply elem_of_app in Hin as [Hin|Hin].
    + destruct Htask. apply list_elem_of_fmap. by exists (task, inf).
    + apply elem_of_cons in Hin as [<-|Hin]; [by left | by right].
  - exact Hadd.
  - intros k. split.
    + intros Hk. destruct (decide (k ∈ keys pre)) as [Hyes|Hno]; [exact Hyes|].
      rewrite (Hnout _ Hno) in Hk. cbn in Hk. rewrite lookup_empty in Hk.
      by destruct Hk.
    + intros ([k' inf'] & -> & Hc')%list_elem_of_fmap. cbn [fst].
      rewrite (Hnin _ _ Hc'). by eexists.
  - rewrite (Hnout _ Htask). apply lookup_empty.
  - exact Hq.
  - intros k biases Hk.
    destruct (add_variables_zero _ _ _ _ _ Hadd k biases Hk) as [Hempty|Hz];
      [|exact Hz].
    cbn in Hempty. rewrite lookup_empty in Hempty. discriminate Hempty.
  - exact Hstep.
  - exact Hraise.
  - unfold __init__. rewrite Hsplit, bind_Ok. cbv zeta. fold horizon.
    by rewrite Hraise.
Qed.

Lemma infeasible_chunk_is_refused_by_the_model_witness :
  let horizon := 1 * 24 in
  horizon - 25 + 1 ≤ 0
  ∧ ∃ pre c post dqm,
      chunks_short_long = pre ++ c :: post
      ∧ (c = ("A_0"%string,
              {| duration := 25; deadline := 30; priority := 1 |})
         ∨ ("A_0"%string,
            {| duration := 25; deadline := 30; priority := 1 |}) ∈ post)
      ∧ _add_variables admits_positive pre horizon empty_dqm = Ok dqm
      ∧ (∀ k, is_Some (num_cases dqm !! k) ↔ k ∈ keys pre)
      ∧ num_cases dqm !! "A_0"%string = None
      ∧ quadratic dqm = ∅
      ∧ (∀ k biases, linear dqm !! k = Some biases →
           Forall (λ b, b = float_of_int 0) biases)
      ∧ add_variable admits_positive (horizon - duration c.2 + 1) c.1 dqm
        = Raise ValueError
      ∧ _add_variables admits_positive chunks_short_long horizon empty_dqm
        = Raise ValueError
      ∧ __init__ admits_positive tasks_short_long 1 ∅ 25 ∅
        = Raise ValueError.
Proof.
  apply (infeasible_chunk_is_refused_by_the_model admits_positive
           tasks_short_long 1 ∅ 25 ∅ chunks_short_long "A_0"%string
           {| duration := 25; deadline := 30; priority := 1 |}).
  - intros n Hn. apply Z.ltb_ge. exact Hn.
  - vm_compute. reflexivity.
  - apply list_elem_of_further, list_elem_of_here.
  - cbn. lia.
Defined.

(** ** The sign of the rewards *)

(** C1: the code at chunk A_0 of the example and the favorite hour 4, where
    neither penalty applies, the priority term is 1/5 and the favorite term
    is 1.  The stored bias is the float 1.2, the sum of the terms; the
    claim's [penalties - rewards] would be -6/5. *)
Theorem rewards_are_added_to_the_bias :
  ∃ dqm b,
    __init__ admits_positive task_A 1 unavailable_3 1 favorite_4 = Ok dqm
    ∧ linear_case dqm "A_0"%string 4 = Some b
    ∧ (b == (5404319552844595 # 4503599627370496))%Q
    ∧ (0 < b)%Q
    ∧ let inf := {| duration := 1; deadline := 5; priority := 1 |} in
      ¬ (b == inject_Z (deadline_term inf 4)
              + inject_Z (unavailable_term unavailable_3 4)
              - priority_term inf 4
              - inject_Z (favorite_term favorite_4 4))%Q.
Proof.
  assert (_split_tasks 1 task_A = Ok chunks_A) as Hsplit
    by (vm_compute; reflexivity).
  destruct (init_completes admits_positive task_A 1 unavailable_3 1
              favorite_4 chunks_A Hsplit) as [dqm Hinit];
    [feasible_chunks | finite_chunks |].
  destruct (init_linear_float _ _ _ _ _ _ _ _ "A_0"%string
              {| duration := 1; deadline := 5; priority := 1 |} 4
              Hsplit Hinit) as [_ Hb]; [apply list_elem_of_here | cbn; lia |].
  exists dqm. eexists. split; [exact Hinit|].
  split; [unfold linear_case; rewrite Hb; vm_compute; reflexivity|].
  split; [vm_compute; reflexivity|]. split; [vm_compute; reflexivity|].
  intros inf Heq. vm_compute in Heq. discriminate Heq.
Qed.

(** C9: the code at a chunk of priority 0 that meets its deadline at every
    start time, with no unavailable hour: the start times 4, a favorite hour,
    and 5, not one, agree on the three other terms, and the bias of hour 4 is
    1 while that of hour 5 is 0, so the favorite hour is not strictly
    lower. *)
Theorem favorite_hour_bias_is_higher :
  ∃ dqm b_a b_b,
    __init__ admits_positive task_plain 1 ∅ 1 favorite_4 = Ok dqm
    ∧ linear_case dqm "A_0"%string 4 = Some b_a
    ∧ linear_case dqm "A_0"%string 5 = Some b_b
    ∧ (4 ∈ favorite_4) ∧ (5 ∉ favorite_4)
    ∧ (let inf := {| duration := 1; deadline := 24; priority := 0 |} in
       deadline_term inf 4 = deadline_term inf 5
       ∧ unavailable_term ∅ 4 = unavailable_term ∅ 5
       ∧ (priority_term inf 4 == priority_term inf 5)%Q)
    ∧ (b_a == 1)%Q ∧ (b_b == 0)%Q
    ∧ ¬ (b_a < b_b)%Q.
Proof.
  set (inf := {| duration := 1; deadline := 24; priority := 0 |}).
  assert (_split_tasks 1 task_plain = Ok [("A_0"%string, inf)]) as Hsplit
    by (vm_compute; reflexivity).
  destruct (init_completes admits_positive task_plain 1 ∅ 1 favorite_4
              [("A_0"%string, inf)] Hsplit) as [dqm Hinit];
    [feasible_chunks | finite_chunks |].
  destruct (init_linear_float _ _ _ _ _ _ _ _ "A_0"%string inf 4
              Hsplit Hinit) as [_ Ha]; [apply list_elem_of_here | cbn; lia |].
  destruct (init_linear_float _ _ _ _ _ _ _ _ "A_0"%string inf 5
              Hsplit Hinit) as [_ Hb]; [apply list_elem_of_here | cbn; lia |].
  exists dqm. eexists. eexists. split; [exact Hinit|].
  split; [unfold linear_case; rewrite Ha; vm_compute; reflexivity|].
  split; [unfold linear_case; rewrite Hb; vm_compute; reflexivity|].
  split_and!.
  - apply (bool_decide_unpack _). vm_compute. exact I.
  - apply (bool_decide_unpack _). vm_compute. exact I.
  - cbv zeta. split_and!; reflexivity.
  - vm_compute. reflexivity.
  - vm_compute. reflexivity.
  - intros Hlt. vm_compute in Hlt. discriminate Hlt.
Qed.

(** * Further properties of the code *)

(** ** The splitter beyond tasks of positive duration *)

Lemma elem_of_spec_chunks m task inf k c :
  (k, c) ∈ spec_chunks m (task, inf) →
  ∃ i, k = chunk_name task i
       ∧ deadline c = deadline inf ∧ priority c = priority inf
       ∧ (duration c = m ∨ (duration c = duration inf `mod` m
                            ∧ duration inf `mod` m > 0)).
Proof.
  unfold spec_chunks. rewrite elem_of_app. intros [H|H].
  - apply list_elem_of_fmap in H as (i & Heq & _). injection Heq as -> ->.
    exists i. cbn. split_and!; auto.
  - destruct (decide (duration inf `mod` m > 0)) as [Hr|Hr];
      [|by apply elem_of_nil in H].
    apply list_elem_of_singleton in H. injection H as -> ->.
    eexists. cbn. split_and!; auto.
Qed.

(** X1: the name [f"{task}_{i}"] determines the task and the index, also for
    task names that themselves end in an underscore and digits; so with
    distinct task names no chunk overwrites another: the keys of the result
    are distinct, and every chunk has exactly one parent task and index,
    whose deadline and priority it carries. *)
Theorem chunk_has_one_parent m tasks :
  m ≠ 0 → NoDup (keys tasks) →
  (∀ task1 i1 task2 i2,
     chunk_name task1 i1 = chunk_name task2 i2 → task1 = task2 ∧ i1 = i2)
  ∧ ∃ chunks,
      _split_tasks m tasks = Ok chunks
      ∧ NoDup (keys chunks)
      ∧ ∀ k c, (k, c) ∈ chunks →
          ∃ task inf i,
            (task, inf) ∈ tasks ∧ k = chunk_name task i
            ∧ deadline c = deadline inf ∧ priority c = priority inf
            ∧ ∀ task' inf' i',
                (task', inf') ∈ tasks → k = chunk_name task' i' →
                task' = task ∧ inf' = inf ∧ i' = i.
Proof.
  intros Hm Hnd. split; [apply chunk_name_inj|].
  exists (tasks ≫= spec_chunks m).
  pose proof (split_tasks_spec_chunks m tasks Hm Hnd) as Hsplit.
  split; [done|]. split; [by eapply split_tasks_NoDup|].
  intros k c ([task inf] & Hin & Htask)%list_elem_of_bind.
  apply elem_of_spec_chunks in Hin as (i & -> & Hdl & Hpr & _).
  exists task, inf, i. split_and!; [done..|].
  intros task' inf' i' Htask' Heq.
  apply chunk_name_inj in Heq as [<- <-]. split_and!; [done| |done].
  by eapply dict_lookup_unique.
Qed.

Lemma chunk_has_one_parent_witness :
  (∀ task1 i1 task2 i2,
     chunk_name task1 i1 = chunk_name task2 i2 → task1 = task2 ∧ i1 = i2)
  ∧ ∃ chunks,
      _split_tasks 1 task_A = Ok chunks
      ∧ NoDup (keys chunks)
      ∧ ∀ k c, (k, c) ∈ chunks →
          ∃ task inf i,
            (task, inf) ∈ task_A ∧ k = chunk_name task i
            ∧ deadline c = deadline inf ∧ priority c = priority inf
            ∧ ∀ task' inf' i',
                (task', inf') ∈ task_A → k = chunk_name task' i' →
                task' = task ∧ inf' = inf ∧ i' = i.
Proof.
  apply (chunk_has_one_parent 1 task_A).
  - lia.
  - apply (bool_decide_unpack _). vm_compute. exact I.
Defined.

Lemma spec_chunks_fits m task inf :
  0 < duration inf ≤ m → spec_chunks m (task, inf) = [(chunk_name task 0, inf)].
Proof.
  intros Hd. unfold spec_chunks. destruct inf as [d dl pr]. cbn in *.
  destruct (decide (d = m)) as [->|Hne].
  - rewrite Z.div_same, Z.mod_same by lia.
    rewrite decide_False by lia. by rewrite app_nil_r.
  - rewrite Z.div_small, Z.mod_small by lia.
    rewrite decide_True by lia. done.
Qed.

(** X2: when every task has a positive duration that does not exceed the
    maximal chunk duration, splitting changes nothing but the names: each
    task becomes the single chunk [f"{task}_0"] with the same duration,
    deadline and priority, in the order of the tasks. *)
Theorem tasks_that_fit_are_renamed m tasks :
  NoDup (keys tasks) →
  Forall (λ c, 0 < duration c.2 ≤ m) tasks →
  _split_tasks m tasks = Ok ((λ c, (chunk_name c.1 0, c.2)) <$> tasks).
Proof.
  intros Hnd Hfit.
  destruct (decide (tasks = [])) as [->|Hne]; [done|].
  assert (m ≠ 0) as Hm.
  { destruct tasks as [|c tasks]; [done|].
    apply Forall_cons in Hfit as [Hc _]. lia. }
  rewrite split_tasks_spec_chunks by done. f_equal.
  clear Hnd Hne. induction Hfit as [|[task inf] tasks Hc _ IH]; [done|].
  rewrite bind_cons, fmap_cons, IH, spec_chunks_fits by done. done.
Qed.

Lemma tasks_that_fit_are_renamed_witness :
  _split_tasks 25 task_long
  = Ok ((λ c, (chunk_name c.1 0, c.2)) <$> task_long).
Proof.
  apply (tasks_that_fit_are_renamed 25 task_long).
  - apply (bool_decide_unpack _). vm_compute. exact I.
  - apply Forall_cons. split; [cbn; lia | apply Forall_nil_2].
Defined.

Lemma spec_chunks_zero m task inf :
  0 < m → duration inf = 0 → spec_chunks m (task, inf) = [].
Proof.
  intros Hm Hd. unfold spec_chunks. rewrite Hd, Z.div_0_l, Z.mod_0_l by lia.
  by rewrite decide_False by lia.
Qed.

Lemma spec_chunks_nonempty m task inf :
  0 < m → spec_chunks m (task, inf) ≠ [] → duration inf ≠ 0.
Proof. intros Hm Hne Hd. by rewrite spec_chunks_zero in Hne. Qed.

Lemma keys_filter_NoDup (P : string * info → Prop) `{∀ c, Decision (P c)}
    (tasks : list (string * info)) :
  NoDup (keys tasks) → NoDup (keys (filter P tasks)).
Proof.
  unfold keys. induction tasks as [|c tasks IH]; [done|].
  rewrite fmap_cons, NoDup_cons. intros [Hc Hnd]. rewrite filter_cons.
  destruct (decide (P c)); [|by apply IH].
  rewrite fmap_cons. apply NoDup_cons. split; [|by apply IH].
  intros (c' & Heq & Hin)%list_elem_of_fmap. apply Hc.
  apply list_elem_of_fmap. exists c'. split; [done|].
  by apply list_elem_of_filter in Hin as [_ ?].
Qed.

(** X3: a task of duration 0 is dropped without a word: with a positive
    maximal duration the splitter returns what it returns without the tasks
    of duration 0, and no chunk of the result bears the name of such a
    task. *)
Theorem zero_duration_tasks_are_dropped m tasks :
  0 < m → NoDup (keys tasks) →
  _split_tasks m tasks
  = _split_tasks m (filter (λ c, duration c.2 ≠ 0) tasks)
  ∧ ∃ chunks,
      _split_tasks m tasks = Ok chunks
      ∧ ∀ task inf i,
          (task, inf) ∈ tasks → duration inf = 0 →
          chunk_name task i ∉ keys chunks.
Proof.
  intros Hm Hnd.
  rewrite (split_tasks_spec_chunks m tasks) by (lia || done).
  rewrite (split_tasks_spec_chunks m (filter _ tasks))
    by (lia || by apply keys_filter_NoDup).
  split.
  - f_equal. clear Hnd. induction tasks as [|[task inf] tasks IH]; [done|].
    rewrite filter_cons, bind_cons, IH. cbn [snd].
    destruct (decide (duration inf ≠ 0)) as [Hd|Hd]; [by rewrite bind_cons|].
    rewrite spec_chunks_zero; [done | lia | lia].
  - eexists. split; [done|]. intros task inf i Hin Hd Hk.
    apply list_elem_of_fmap in Hk as ([k c] & Hk & Hc). cbn in Hk. subst k.
    apply list_elem_of_bind in Hc as ([task' inf'] & Hc & Hin').
    assert (duration inf' ≠ 0) as Hd'.
    { apply (spec_chunks_nonempty m task'); [done|]. intros Hnil.
      rewrite Hnil in Hc. by apply elem_of_nil in Hc. }
    apply elem_of_spec_chunks in Hc as (j & Heq & _).
    apply chunk_name_inj in Heq as [-> _].
    by rewrite (dict_lookup_unique tasks task' inf inf') in Hd.
Qed.

Lemma zero_duration_tasks_are_dropped_witness :
  _split_tasks 1 tasks_empty_A
  = _split_tasks 1 (filter (λ c, duration c.2 ≠ 0) tasks_empty_A)
  ∧ ∃ chunks,
      _split_tasks 1 tasks_empty_A = Ok chunks
      ∧ ∀ task inf i,
          (task, inf) ∈ tasks_empty_A → duration inf = 0 →
          chunk_name task i ∉ keys chunks.
Proof.
  apply (zero_duration_tasks_are_dropped 1 tasks_empty_A).
  - lia.
  - apply (bool_decide_unpack _). vm_compute. exact I.
Defined.

(** X4: a negative duration is not refused.  With a positive maximal
    duration [m], a single task of duration [d < 0] gives no chunk of full
    length and, unless [m] divides [d], one chunk of the positive duration
    [d % m] whose index [d // m] is negative. *)
Theorem negative_duration_is_split m task inf :
  0 < m → duration inf < 0 →
  let d := duration inf in
  d `div` m < 0
  ∧ 0 ≤ d `mod` m < m
  ∧ _split_tasks m [(task, inf)]
    = Ok (if decide (d `mod` m > 0)
          then [(chunk_name task (d `div` m),
                 {| duration := d `mod` m; deadline := deadline inf;
                    priority := priority inf |})]
          else []).
Proof.
  intros Hm Hd d.
  pose proof (Z.mod_pos_bound d m Hm) as Hr.
  pose proof (Z.div_mod d m ltac:(lia)) as Hdm.
  assert (d `div` m < 0) as Hq by (unfold d in *; nia).
  split_and!; [done | lia | lia |].
  rewrite split_tasks_spec_chunks; [|lia|].
  - f_equal. rewrite bind_singleton. unfold spec_chunks. fold d.
    by rewrite seqZ_nil by lia.
  - unfold keys. cbn. apply NoDup_singleton.
Qed.

Lemma negative_duration_is_split_witness :
  let inf := {| duration := -3; deadline := 5; priority := 1 |} in
  let d := duration inf in
  d `div` 2 < 0
  ∧ 0 ≤ d `mod` 2 < 2
  ∧ _split_tasks 2 [("A"%string, inf)]
    = Ok (if decide (d `mod` 2 > 0)
          then [(chunk_name "A" (d `div` 2),
                 {| duration := d `mod` 2; deadline := deadline inf;
                    priority := priority inf |})]
          else []).
Proof.
  apply (negative_duration_is_split 2 "A"%string
           {| duration := -3; deadline := 5; priority := 1 |}).
  - lia.
  - cbn. lia.
Defined.

Lemma dict_set_Forall (P : info → Prop) k v (d : list (string * info)) :
  P v → Forall (λ c, P c.2) d → Forall (λ c, P c.2) (dict_set k v d).
Proof.
  intros Hv. induction d as [|[k' v'] d IH]; cbn [dict_set].
  - intros _. by apply Forall_singleton.
  - rewrite Forall_cons. intros [Hc Hd].
    destruct (decide (k = k')); apply Forall_cons; auto.
Qed.

Lemma split_task_durations m entry acc chunks :
  0 < m → split_task m entry acc = Ok chunks →
  Forall (λ c, 0 < duration c.2 ≤ m) acc →
  Forall (λ c, 0 < duration c.2 ≤ m) chunks.
Proof.
  intros Hm. destruct entry as [task inf].
  unfold split_task, floordiv, pymod. rewrite !decide_False by lia.
  cbn. intros [= <-] Hacc.
  pose proof (Z.mod_pos_bound (duration inf) m Hm) as Hr.
  assert (∀ l, Forall (λ c, 0 < duration c.2 ≤ m)
            (foldl (λ acc i,
               dict_set (chunk_name task i)
                 {| duration := m; deadline := deadline inf;
                    priority := priority inf |} acc) acc l)) as Hfull.
  { induction l as [|i l IH] using rev_ind; [done|].
    rewrite foldl_app. cbn [foldl].
    apply (dict_set_Forall (λ v, 0 < duration v ≤ m)); [cbn; lia | done]. }
  destruct (decide (duration inf `mod` m > 0)); [|apply Hfull].
  apply (dict_set_Forall (λ v, 0 < duration v ≤ m)); [cbn; lia | apply Hfull].
Qed.

Lemma split_tasks_durations m tasks chunks :
  0 < m → _split_tasks m tasks = Ok chunks →
  Forall (λ c, 0 < duration c.2 ≤ m) chunks.
Proof.
  intros Hm. unfold _split_tasks.
  assert (Forall (λ c, 0 < duration c.2 ≤ m) (@nil (string * info))) as Hnil
    by apply Forall_nil_2.
  revert Hnil. generalize (@nil (string * info)).
  induction tasks as [|entry tasks IH]; intros acc Hacc; cbn [for_each].
  - by intros [= <-].
  - destruct (split_task m entry acc) as [acc'|e] eqn:Hstep; [|done].
    rewrite bind_Ok. apply IH. by eapply split_task_durations.
Qed.

(** X5: with a positive maximal duration [m] the splitter always returns, and
    every chunk it returns has a duration in [(0, m]], whatever the durations
    of the tasks are, zero and negative ones included. *)
Theorem chunk_durations_are_bounded m tasks :
  0 < m →
  ∃ chunks,
    _split_tasks m tasks = Ok chunks
    ∧ Forall (λ c, 0 < duration c.2 ≤ m) chunks.
Proof.
  intros Hm. destruct (split_tasks_total m tasks) as [chunks Hsplit]; [lia|].
  exists chunks. split; [done|]. by eapply split_tasks_durations.
Qed.

Lemma chunk_durations_are_bounded_witness :
  ∃ chunks,
    _split_tasks 2 [("A"%string,
                     {| duration := -3; deadline := 5; priority := 1 |})]
    = Ok chunks
    ∧ Forall (λ c, 0 < duration c.2 ≤ 2) chunks.
Proof.
  apply (chunk_durations_are_bounded 2
           [("A"%string, {| duration := -3; deadline := 5; priority := 1 |})]).
  lia.
Defined.

Lemma ceil_div d m :
  0 < m →
  (d + m - 1) `div` m
  = d `div` m + (if decide (d `mod` m > 0) then 1 else 0).
Proof.
  intros Hm. pose proof (Z.mod_pos_bound d m Hm) as Hr.
  pose proof (Z.div_mod d m ltac:(lia)) as Hdm.
  destruct (decide (d `mod` m > 0)).
  - symmetry. apply (Z.div_unique _ _ _ (d `mod` m - 1)); lia.
  - symmetry. apply (Z.div_unique _ _ _ (m - 1)); lia.
Qed.

Lemma length_spec_chunks m task inf :
  0 < m → 0 ≤ duration inf →
  length (spec_chunks m (task, inf))
  = Z.to_nat ((duration inf + m - 1) `div` m).
Proof.
  intros Hm Hd. rewrite ceil_div by done. unfold spec_chunks.
  assert (0 ≤ duration inf `div` m) by (apply Z.div_pos; lia).
  rewrite length_app, length_fmap, length_seqZ.
  destruct (decide (duration inf `mod` m > 0)); cbn [length]; lia.
Qed.

(** X6: with a positive maximal duration [m] and distinct task names, a task
    of duration [d ≥ 0] gives [ceil (d / m)] chunks, and the result holds
    them all: its length is the sum of these numbers over the tasks. *)
Theorem number_of_chunks m tasks :
  0 < m → NoDup (keys tasks) →
  Forall (λ c, 0 ≤ duration c.2) tasks →
  ∃ chunks,
    _split_tasks m tasks = Ok chunks
    ∧ length chunks
      = sum_list_with (λ c, Z.to_nat ((duration c.2 + m - 1) `div` m)) tasks.
Proof.
  intros Hm Hnd Hpos. rewrite split_tasks_spec_chunks by (lia || done).
  eexists. split; [done|]. clear Hnd.
  induction Hpos as [|[task inf] tasks Hc _ IH]; [done|].
  rewrite bind_cons, length_app, IH, length_spec_chunks by done. done.
Qed.

Lemma number_of_chunks_witness :
  ∃ chunks,
    _split_tasks 1 task_A = Ok chunks
    ∧ length chunks
      = sum_list_with (λ c, Z.to_nat ((duration c.2 + 1 - 1) `div` 1)) task_A.
Proof.
  apply (number_of_chunks 1 task_A).
  - lia.
  - apply (bool_decide_unpack _). vm_compute. exact I.
  - apply Forall_cons. split; [cbn; lia | apply Forall_nil_2].
Defined.

(** ** The scheduler of the command line *)

Lemma spec_chunks_one task inf :
  spec_chunks 1 (task, inf)
  = (λ i, (chunk_name task i,
           {| duration := 1; deadline := deadline inf;
              priority := priority inf |})) <$> range (duration inf).
Proof.
  unfold spec_chunks, range. rewrite Z.div_1_r, Z.mod_1_r.
  rewrite decide_False by lia. by rewrite app_nil_r.
Qed.

(** X7: from the command line the maximal chunk duration is always 1, so the
    splitter never fails and a task of duration [d] becomes the [d] one-hour
    chunks [f"{task}_0" .. f"{task}_{d-1}"] (none for [d ≤ 0]).  When
    [num_days ≥ 0] and the model admits the cardinality [num_days * 24], the
    construction completes if and only if no reward of line 81 overflows,
    its only exception is that [OverflowError], and the finished model has
    [num_days * 24] start times for every chunk. *)
Theorem command_line_scheduler admits tasks num_days unavailable_hours
    favorite_hours :
  NoDup (keys tasks) →
  0 ≤ num_days →
  admits (num_days * 24) = true →
  let chunks :=
    tasks ≫= λ c,
      (λ i, (chunk_name c.1 i,
             {| duration := 1; deadline := deadline c.2;
                priority := priority c.2 |})) <$> range (duration c.2) in
  _split_tasks 1 tasks = Ok chunks
  ∧ ((∃ dqm, main_task_scheduler admits tasks num_days unavailable_hours
               favorite_hours = Ok dqm)
     ↔ Forall (λ c, finite_rewards (num_days * 24) c.2) chunks)
  ∧ (∀ e, main_task_scheduler admits tasks num_days unavailable_hours
            favorite_hours = Raise e → e = OverflowError)
  ∧ ∀ dqm,
      main_task_scheduler admits tasks num_days unavailable_hours
        favorite_hours = Ok dqm →
      ∀ k c, (k, c) ∈ chunks → num_cases dqm !! k = Some (num_days * 24).
Proof.
  intros Hnd Hdays Hadm chunks.
  assert (_split_tasks 1 tasks = Ok chunks) as Hsplit.
  { rewrite split_tasks_spec_chunks by (lia || done). f_equal.
    unfold chunks. apply list_bind_ext; [|done].
    intros [task inf]. apply spec_chunks_one. }
  split; [exact Hsplit|].
  assert (∀ c, c ∈ chunks → duration c.2 = 1) as Hone.
  { intros c ([task inf] & Hc & _)%list_elem_of_bind.
    apply list_elem_of_fmap in Hc as (i & -> & _). done. }
  assert (Forall (λ c, feasible admits (num_days * 24) c.2) chunks) as Hfeas.
  { apply Forall_forall. intros c Hc. unfold feasible.
    rewrite (Hone c Hc).
    replace (num_days * 24 - 1 + 1) with (num_days * 24) by lia.
    split; [lia | exact Hadm]. }
  pose proof (split_tasks_NoDup _ _ _ Hsplit) as Hndc.
  unfold main_task_scheduler. split_and!.
  - split.
    + intros [dqm Hinit]. rewrite (init_passes _ _ _ _ _ _ _ Hsplit) in Hinit.
      by apply passes_feasible in Hinit as [_ Hfin].
    + intros Hfin. by eapply init_completes.
  - intros e Hraise. rewrite (init_passes _ _ _ _ _ _ _ Hsplit) in Hraise.
    by eapply passes_Raise.
  - intros dqm Hinit k c Hc.
    destruct (init_model _ _ _ _ _ _ _ _ Hsplit Hinit) as (Hlin & _ & _).
    destruct (Hlin k c Hc) as (Hn & _).
    pose proof (Hone (k, c) Hc) as Hd. cbn [snd] in Hd.
    rewrite Hn, Hd. f_equal. lia.
Qed.

Lemma command_line_scheduler_witness :
  let chunks :=
    task_A ≫= λ c,
      (λ i, (chunk_name c.1 i,
             {| duration := 1; deadline := deadline c.2;
                priority := priority c.2 |})) <$> range (duration c.2) in
  _split_tasks 1 task_A = Ok chunks
  ∧ ((∃ dqm, main_task_scheduler admits_positive task_A 1 unavailable_3
               favorite_4 = Ok dqm)
     ↔ Forall (λ c, finite_rewards (1 * 24) c.2) chunks)
  ∧ (∀ e, main_task_scheduler admits_positive task_A 1 unavailable_3
            favorite_4 = Raise e → e = OverflowError)
  ∧ ∀ dqm,
      main_task_scheduler admits_positive task_A 1 unavailable_3 favorite_4
      = Ok dqm →
      ∀ k c, (k, c) ∈ chunks → num_cases dqm !! k = Some (1 * 24).
Proof.
  apply (command_line_scheduler admits_positive task_A 1 unavailable_3
           favorite_4).
  - apply (bool_decide_unpack _). vm_compute. exact I.
  - lia.
  - reflexivity.
Defined.

(** ** What the finished model holds, and nothing else *)

(** X8: the variables of a finished model are exactly the chunks: a label
    has a cardinality, and a bias vector, if and only if it is the name of a
    chunk, and then the cardinality is [horizon - duration + 1]. *)
Theorem model_variables_are_the_chunks admits tasks num_days
    unavailable_hours max_task_duration favorite_hours chunks dqm :
  _split_tasks max_task_duration tasks = Ok chunks →
  __init__ admits tasks num_days unavailable_hours max_task_duration
    favorite_hours = Ok dqm →
  (∀ k n, num_cases dqm !! k = Some n
          ↔ ∃ inf, (k, inf) ∈ chunks
                   ∧ n = num_days * 24 - duration inf + 1)
  ∧ (∀ k, is_Some (linear dqm !! k) ↔ k ∈ keys chunks).
Proof.
  intros Hsplit Hinit.
  destruct (init_model _ _ _ _ _ _ _ _ Hsplit Hinit) as (Hlin & Hout & _).
  assert (∀ k, k ∈ keys chunks → ∃ inf, (k, inf) ∈ chunks) as Hkey.
  { intros k ([k' inf] & -> & Hc)%list_elem_of_fmap. by exists inf. }
  split.
  - intros k n. split.
    + intros Hk. destruct (decide (k ∈ keys chunks)) as [Hin|Hno].
      * destruct (Hkey k Hin) as [inf Hc]. exists inf. split; [exact Hc|].
        destruct (Hlin k inf Hc) as (Hn & _). rewrite Hn in Hk.
        by injection Hk.
      * destruct (Hout k Hno) as [Hnone _]. congruence.
    + intros (inf & Hc & ->). by destruct (Hlin k inf Hc) as (Hn & _).
  - intros k. split.
    + intros Hk. destruct (decide (k ∈ keys chunks)) as [Hin|Hno]; [exact Hin|].
      destruct (Hout k Hno) as [_ Hnone]. rewrite Hnone in Hk.
      by destruct Hk.
    + intros Hin. destruct (Hkey k Hin) as [inf Hc].
      destruct (Hlin k inf Hc) as (_ & _ & _ & Hl). rewrite Hl. by eexists.
Qed.

Lemma model_variables_are_the_chunks_witness :
  ∃ dqm,
    __init__ admits_positive task_A 1 unavailable_3 1 favorite_4 = Ok dqm
    ∧ (∀ k n, num_cases dqm !! k = Some n
              ↔ ∃ inf, (k, inf) ∈ chunks_A ∧ n = 1 * 24 - duration inf + 1)
    ∧ (∀ k, is_Some (linear dqm !! k) ↔ k ∈ keys chunks_A).
Proof.
  destruct (init_completes admits_positive task_A 1 unavailable_3 1
              favorite_4 chunks_A)
    as [dqm Hinit];
    [vm_compute; reflexivity | feasible_chunks | finite_chunks |].
  exists dqm. split; [exact Hinit|].
  apply (model_variables_are_the_chunks admits_positive task_A 1
           unavailable_3 1 favorite_4 chunks_A dqm).
  - vm_compute. reflexivity.
  - exact Hinit.
Defined.

Lemma model_quadratic_entry chunks H dqm u tu v tv b :
  NoDup (keys chunks) →
  quadratic dqm = add_entries (ordered_pairs chunks ≫= pair_entries H) ∅ →
  quadratic_case dqm u tu v tv = Some b
  ↔ b = 10%Q
    ∧ ∃ inf1 inf2,
        (u, inf1) ∈ chunks ∧ (v, inf2) ∈ chunks ∧ u ≠ v
        ∧ 0 ≤ tu < H - duration inf1 + 1 ∧ 0 ≤ tv < H - duration inf2 + 1
        ∧ conflict tu (duration inf1) tv (duration inf2) = true.
Proof.
  intros Hnd Hq. split.
  - unfold quadratic_case. rewrite Hq, lookup_add_entries, lookup_empty.
    cbn [fst snd].
    destruct (decide (_ ∨ _)) as [[Hin|Hin]|?]; [| |done]; intros [= <-];
      (split; [done|]);
      apply elem_of_conflict_entries in Hin
        as (i1 & i2 & Hi1 & Hi2 & Hlt & Ht1 & Ht2 & Hc).
    + exists i1, i2.
      split_and!; try done; try lia;
        try (intros ->; by rewrite ltb_irrefl in Hlt).
    + exists i2, i1.
      split_and!; try done; try lia;
        try (intros ->; by rewrite ltb_irrefl in Hlt).
      by rewrite conflict_sym.
  - intros (-> & inf1 & inf2 & H1 & H2 & Hne & Ht1 & Ht2 & Hc).
    rewrite (model_quadratic_case chunks H dqm u inf1 v inf2 tu tv) by done.
    by rewrite Hc.
Qed.

(** X9: the penalty entries of a finished model are exactly the conflicts:
    there is an entry for [(u, tu)] and [(v, tv)] if and only if [u] and [v]
    are two chunks with different names, [tu] and [tv] are start times of
    their domains and the test of line 65 holds; the entry is then 10.  So
    no chunk has an entry with itself, no entry lies outside the domains, and
    no penalty is ever counted twice. *)
Theorem model_penalties_are_the_conflicts admits tasks num_days
    unavailable_hours max_task_duration favorite_hours chunks dqm :
  _split_tasks max_task_duration tasks = Ok chunks →
  __init__ admits tasks num_days unavailable_hours max_task_duration
    favorite_hours = Ok dqm →
  ∀ u tu v tv b,
    quadratic_case dqm u tu v tv = Some b
    ↔ b = 10%Q
      ∧ ∃ inf1 inf2,
          (u, inf1) ∈ chunks ∧ (v, inf2) ∈ chunks ∧ u ≠ v
          ∧ 0 ≤ tu < num_days * 24 - duration inf1 + 1
          ∧ 0 ≤ tv < num_days * 24 - duration inf2 + 1
          ∧ conflict tu (duration inf1) tv (duration inf2) = true.
Proof.
  intros Hsplit Hinit.
  destruct (init_model _ _ _ _ _ _ _ _ Hsplit Hinit) as (_ & _ & Hq).
  intros u tu v tv b.
  apply model_quadratic_entry; [by eapply split_tasks_NoDup | exact Hq].
Qed.

Lemma model_penalties_are_the_conflicts_witness :
  ∃ dqm,
    __init__ admits_positive task_A 1 unavailable_3 1 favorite_4 = Ok dqm
    ∧ ∀ u tu v tv b,
        quadratic_case dqm u tu v tv = Some b
        ↔ b = 10%Q
          ∧ ∃ inf1 inf2,
              (u, inf1) ∈ chunks_A ∧ (v, inf2) ∈ chunks_A ∧ u ≠ v
              ∧ 0 ≤ tu < 1 * 24 - duration inf1 + 1
              ∧ 0 ≤ tv < 1 * 24 - duration inf2 + 1
              ∧ conflict tu (duration inf1) tv (duration inf2) = true.
Proof.
  destruct (init_completes admits_positive task_A 1 unavailable_3 1
              favorite_4 chunks_A)
    as [dqm Hinit];
    [vm_compute; reflexivity | feasible_chunks | finite_chunks |].
  exists dqm. split; [exact Hinit|].
  apply (model_penalties_are_the_conflicts admits_positive task_A 1
           unavailable_3 1 favorite_4 chunks_A dqm).
  - vm_compute. reflexivity.
  - exact Hinit.
Defined.

(** X10: with a positive maximal chunk duration, two different chunks of a
    finished model placed at start times of their domains carry the penalty
    10 if and only if they share an hour: some [h] lies in both
    [[t1, t1 + dur1)] and [[t2, t2 + dur2)]; chunks of one task are treated
    like chunks of different tasks. *)
Theorem penalty_iff_shared_hour admits tasks num_days unavailable_hours
    max_task_duration favorite_hours chunks dqm :
  0 < max_task_duration →
  _split_tasks max_task_duration tasks = Ok chunks →
  __init__ admits tasks num_days unavailable_hours max_task_duration
    favorite_hours = Ok dqm →
  ∀ task1 info1 task2 info2 t1 t2,
    (task1, info1) ∈ chunks → (task2, info2) ∈ chunks →
    task1 ≠ task2 →
    0 ≤ t1 < num_days * 24 - duration info1 + 1 →
    0 ≤ t2 < num_days * 24 - duration info2 + 1 →
    (quadratic_case dqm task1 t1 task2 t2 = Some 10%Q
     ↔ ∃ h, t1 ≤ h < t1 + duration info1 ∧ t2 ≤ h < t2 + duration info2)
    ∧ (quadratic_case dqm task1 t1 task2 t2 = None
       ↔ ¬ ∃ h, t1 ≤ h < t1 + duration info1
                ∧ t2 ≤ h < t2 + duration info2).
Proof.
  intros Hm Hsplit Hinit.
  destruct (init_model _ _ _ _ _ _ _ _ Hsplit Hinit) as (_ & _ & Hq).
  intros task1 info1 task2 info2 t1 t2 Hin1 Hin2 Hne Ht1 Ht2.
  pose proof (split_tasks_NoDup _ _ _ Hsplit) as Hnd.
  pose proof (split_tasks_durations _ _ _ Hm Hsplit) as Hdur.
  rewrite Forall_forall in Hdur.
  pose proof (Hdur _ Hin1) as Hd1. pose proof (Hdur _ Hin2) as Hd2.
  cbn [snd] in Hd1, Hd2.
  rewrite (model_quadratic_case chunks (num_days * 24) dqm task1 info1
             task2 info2 t1 t2 Hnd Hq Hin1 Hin2 Hne Ht1 Ht2).
  assert (conflict t1 (duration info1) t2 (duration info2) = true
          ↔ ∃ h, t1 ≤ h < t1 + duration info1 ∧ t2 ≤ h < t2 + duration info2)
    as Hshare.
  { rewrite conflict_overlap by lia. split.
    - intros [Ha Hb]. exists (Z.max t1 t2). lia.
    - intros (h & Ha & Hb). lia. }
  destruct (conflict t1 (duration info1) t2 (duration info2)).
  - split; [tauto|]. split; [discriminate|].
    intros Hno. destruct Hno. by apply Hshare.
  - split.
    + split; [discriminate|]. intros Hh. apply Hshare in Hh. discriminate Hh.
    + split; [|reflexivity]. intros _ Hh. apply Hshare in Hh.
      discriminate Hh.
Qed.

Lemma penalty_iff_shared_hour_witness :
  ∃ dqm,
    __init__ admits_positive task_A 1 unavailable_3 1 favorite_4 = Ok dqm
    ∧ ∀ task1 info1 task2 info2 t1 t2,
        (task1, info1) ∈ chunks_A → (task2, info2) ∈ chunks_A →
        task1 ≠ task2 →
        0 ≤ t1 < 1 * 24 - duration info1 + 1 →
        0 ≤ t2 < 1 * 24 - duration info2 + 1 →
        (quadratic_case dqm task1 t1 task2 t2 = Some 10%Q
         ↔ ∃ h, t1 ≤ h < t1 + duration info1 ∧ t2 ≤ h < t2 + duration info2)
        ∧ (quadratic_case dqm task1 t1 task2 t2 = None
           ↔ ¬ ∃ h, t1 ≤ h < t1 + duration info1
                    ∧ t2 ≤ h < t2 + duration info2).
Proof.
  destruct (init_completes admits_positive task_A 1 unavailable_3 1
              favorite_4 chunks_A)
    as [dqm Hinit];
    [vm_compute; reflexivity | feasible_chunks | finite_chunks |].
  exists dqm. split; [exact Hinit|].
  apply (penalty_iff_shared_hour admits_positive task_A 1 unavailable_3 1
           favorite_4 chunks_A dqm).
  - lia.
  - vm_compute. reflexivity.
  - exact Hinit.
Defined.

(** ** How the passes compose *)

Lemma dqm_eq (a b : DQM) :
  num_cases a = num_cases b → linear a = linear b →
  quadratic a = quadratic b → a = b.
Proof. destruct a, b. cbn. by intros -> -> ->. Qed.

Lemma float_value_penalty unavailable_hours inf t :
  float_value (penalty_bias unavailable_hours inf t)
  = Some (inject_Z (deadline_term inf t
                    + unavailable_term unavailable_hours t)).
Proof.
  unfold penalty_bias, deadline_term, unavailable_term.
  destruct (decide (t + duration inf > deadline inf)),
    (decide (t ∈ unavailable_hours)); reflexivity.
Qed.

(** X11: [_add_deadline_and_unavailable_penalties] overwrites: whatever bias
    vectors the model held, afterwards the bias of every start time of every
    chunk is the deadline penalty plus the unavailability penalty and nothing
    else, and running the pass a second time changes nothing. *)
Theorem penalties_pass_overwrites chunks H unavailable_hours dqm :
  NoDup (keys chunks) →
  (∀ k inf, (k, inf) ∈ chunks →
     num_cases dqm !! k = Some (H - duration inf + 1)
     ∧ 0 ≤ H - duration inf + 1) →
  ∃ dqm',
    _add_deadline_and_unavailable_penalties chunks H unavailable_hours dqm
    = Ok dqm'
    ∧ (∀ k inf t,
         (k, inf) ∈ chunks → 0 ≤ t < H - duration inf + 1 →
         linear_case dqm' k t
         = Some (inject_Z
                   ((if decide (t + duration inf > deadline inf)
                     then 10 else 0)
                    + (if decide (t ∈ unavailable_hours) then 10 else 0))))
    ∧ _add_deadline_and_unavailable_penalties chunks H unavailable_hours dqm'
      = Ok dqm'.
Proof.
  intros Hnd Hreg.
  destruct (penalties_pass chunks H unavailable_hours dqm Hnd Hreg)
    as (dqm1 & Hrun & Hn1 & Hq1 & Hl1 & Ho1).
  exists dqm1. split; [done|]. split.
  - intros k inf t Hc Ht. unfold linear_case.
    rewrite (linear_float_fmap dqm1 k (penalty_bias unavailable_hours inf)
               (H - duration inf + 1) t (Hl1 k inf Hc) Ht).
    apply float_value_penalty.
  - destruct (penalties_pass chunks H unavailable_hours dqm1 Hnd)
      as (dqm2 & Hrun2 & Hn2 & Hq2 & Hl2 & Ho2).
    { intros k inf Hc. rewrite Hn1. by apply Hreg. }
    rewrite Hrun2. f_equal. apply dqm_eq; [done| |done].
    apply map_eq. intros k.
    destruct (decide (k ∈ keys chunks)) as [Hin|Hout]; [|by apply Ho2].
    apply list_elem_of_fmap in Hin as ([k' inf] & -> & Hc). cbn [fst].
    by rewrite (Hl2 k' inf Hc), (Hl1 k' inf Hc).
Qed.

Lemma penalties_pass_overwrites_witness :
  ∃ dqm',
    _add_deadline_and_unavailable_penalties chunks_A 24 unavailable_3
      registered_A = Ok dqm'
    ∧ (∀ k inf t,
         (k, inf) ∈ chunks_A → 0 ≤ t < 24 - duration inf + 1 →
         linear_case dqm' k t
         = Some (inject_Z
                   ((if decide (t + duration inf > deadline inf)
                     then 10 else 0)
                    + (if decide (t ∈ unavailable_3) then 10 else 0))))
    ∧ _add_deadline_and_unavailable_penalties chunks_A 24 unavailable_3 dqm'
      = Ok dqm'.
Proof.
  apply (penalties_pass_overwrites chunks_A 24 unavailable_3 registered_A).
  - apply (bool_decide_unpack _). vm_compute. exact I.
  - intros k inf Hin.
    apply elem_of_cons in Hin as [Heq|Hin];
      [|apply elem_of_cons in Hin as [Heq|Hin];
        [|by apply elem_of_nil in Hin]];
      injection Heq as -> ->; (split; [reflexivity | cbn; lia]).
Defined.

(** X12: [_add_priority_rewards] accumulates: it reads the stored vector back
    and adds to it, so running it once more on a finished model completes
    and adds the sum of the priority term and the favorite-hour term, as
    floats, a second time to every bias. *)
Theorem rewards_pass_accumulates admits tasks num_days unavailable_hours
    max_task_duration favorite_hours chunks dqm :
  _split_tasks max_task_duration tasks = Ok chunks →
  __init__ admits tasks num_days unavailable_hours max_task_duration
    favorite_hours = Ok dqm →
  ∃ dqm2,
    _add_priority_rewards chunks (num_days * 24) favorite_hours dqm = Ok dqm2
    ∧ ∀ task inf t,
        (task, inf) ∈ chunks →
        0 ≤ t < num_days * 24 - duration inf + 1 →
        ∃ b r,
          linear_float dqm task t = Some b
          ∧ true_div (priority inf) (t + 1) = Ok r
          ∧ linear_float dqm2 task t
            = Some (float_add b
                      (float_add r
                         (float_of_int
                            (if decide (t ∈ favorite_hours) then 1 else 0)))).
Proof.
  intros Hsplit Hinit.
  destruct (init_model _ _ _ _ _ _ _ _ Hsplit Hinit) as (Hlin & _ & _).
  pose proof (split_tasks_NoDup _ _ _ Hsplit) as Hnd.
  destruct (rewards_pass (combined_bias unavailable_hours favorite_hours)
              chunks (num_days * 24) favorite_hours dqm Hnd Hlin)
    as (dqm2 & Hrun & _ & _ & Hl2 & _).
  exists dqm2. split; [exact Hrun|].
  intros task inf t Hc Ht.
  destruct (init_linear_float _ _ _ _ _ _ _ _ task inf t Hsplit Hinit Hc Ht)
    as [Hdiv Hb].
  exists (combined_bias unavailable_hours favorite_hours inf t),
    (reward_term inf t).
  split_and!; [exact Hb | exact Hdiv |].
  apply (linear_float_fmap dqm2 task
           (λ t, add_rewards favorite_hours inf t
                   (combined_bias unavailable_hours favorite_hours inf t))
           (num_days * 24 - duration inf + 1) t (Hl2 task inf Hc) Ht).
Qed.

Lemma rewards_pass_accumulates_witness :
  ∃ dqm,
    __init__ admits_positive task_A 1 unavailable_3 1 favorite_4 = Ok dqm
    ∧ ∃ dqm2,
        _add_priority_rewards chunks_A (1 * 24) favorite_4 dqm = Ok dqm2
        ∧ ∀ task inf t,
            (task, inf) ∈ chunks_A →
            0 ≤ t < 1 * 24 - duration inf + 1 →
            ∃ b r,
              linear_float dqm task t = Some b
              ∧ true_div (priority inf) (t + 1) = Ok r
              ∧ linear_float dqm2 task t
                = Some (float_add b
                          (float_add r
                             (float_of_int
                                (if decide (t ∈ favorite_4) then 1 else 0)))).
Proof.
  destruct (init_completes admits_positive task_A 1 unavailable_3 1
              favorite_4 chunks_A)
    as [dqm Hinit];
    [vm_compute; reflexivity | feasible_chunks | finite_chunks |].
  exists dqm. split; [exact Hinit|].
  apply (rewards_pass_accumulates admits_positive task_A 1 unavailable_3 1
           favorite_4 chunks_A dqm).
  - vm_compute. reflexivity.
  - exact Hinit.
Defined.

Lemma set_linear_with_quadratic label biases q m :
  set_linear label biases (with_quadratic q m)
  = set_linear label biases m ≫= λ m', Ok (with_quadratic q m').
Proof.
  unfold set_linear. cbn [num_cases with_quadratic].
  destruct (num_cases m !! label); [|done]. by case_decide.
Qed.

Lemma set_linear_keeps label biases m m' :
  set_linear label biases m = Ok m' →
  num_cases m' = num_cases m ∧ quadratic m' = quadratic m.
Proof.
  unfold set_linear. destruct (num_cases m !! label); [|done].
  case_decide; [|done]. by intros [= <-].
Qed.

Lemma penalties_pass_with_quadratic chunks H unavailable_hours q dqm :
  _add_deadline_and_unavailable_penalties chunks H unavailable_hours
    (with_quadratic q dqm)
  = _add_deadline_and_unavailable_penalties chunks H unavailable_hours dqm
    ≫= λ dqm', Ok (with_quadratic q dqm').
Proof.
  unfold _add_deadline_and_unavailable_penalties.
  apply (for_each_commute _ _ (with_quadratic q)).
  intros [task inf] s. apply set_linear_with_quadratic.
Qed.

Lemma rewards_pass_with_quadratic chunks H favorite_hours q dqm :
  _add_priority_rewards chunks H favorite_hours (with_quadratic q dqm)
  = _add_priority_rewards chunks H favorite_hours dqm
    ≫= λ dqm', Ok (with_quadratic q dqm').
Proof.
  unfold _add_priority_rewards.
  apply (for_each_commute _ _ (with_quadratic q)).
  intros [task inf] s. cbv beta iota zeta.
  destruct (rewards inf H) as [rs|e]; [|done]. rewrite !bind_Ok.
  unfold get_linear. cbn [linear with_quadratic].
  destruct (linear s !! task); [|done].
  rewrite !bind_Ok. apply set_linear_with_quadratic.
Qed.

Lemma penalties_pass_keeps chunks H unavailable_hours dqm dqm' :
  _add_deadline_and_unavailable_penalties chunks H unavailable_hours dqm
  = Ok dqm' →
  num_cases dqm' = num_cases dqm ∧ quadratic dqm' = quadratic dqm.
Proof.
  unfold _add_deadline_and_unavailable_penalties.
  apply (for_each_invariant
           (λ a b, num_cases b = num_cases a ∧ quadratic b = quadratic a)).
  - done.
  - intros a b c [-> ->] [-> ->]. done.
  - intros [task inf] s s'. apply set_linear_keeps.
Qed.

Lemma rewards_pass_keeps chunks H favorite_hours dqm dqm' :
  _add_priority_rewards chunks H favorite_hours dqm = Ok dqm' →
  num_cases dqm' = num_cases dqm ∧ quadratic dqm' = quadratic dqm.
Proof.
  unfold _add_priority_rewards.
  apply (for_each_invariant
           (λ a b, num_cases b = num_cases a ∧ quadratic b = quadratic a)).
  - done.
  - intros a b c [-> ->] [-> ->]. done.
  - intros [task inf] s s'. cbv beta iota zeta.
    destruct (rewards inf H) as [rs|e]; [|done]. rewrite bind_Ok.
    destruct (get_linear task s); [|done].
    rewrite bind_Ok. apply set_linear_keeps.
Qed.

(** X13: the penalty pass and the two bias passes do not interfere: the bias
    passes leave the penalty entries alone, the penalty pass leaves the
    biases alone, and on a model in which the chunks are registered, running
    [_add_constraints_and_penalties] before or after either bias pass gives
    the same result, errors included. *)
Theorem penalty_pass_commutes_with_bias_passes chunks H unavailable_hours
    favorite_hours dqm :
  (∀ k, k ∈ keys chunks → is_Some (num_cases dqm !! k)) →
  (_add_constraints_and_penalties chunks H dqm
   ≫= _add_deadline_and_unavailable_penalties chunks H unavailable_hours)
  = (_add_deadline_and_unavailable_penalties chunks H unavailable_hours dqm
     ≫= _add_constraints_and_penalties chunks H)
  ∧ (_add_constraints_and_penalties chunks H dqm
     ≫= _add_priority_rewards chunks H favorite_hours)
    = (_add_priority_rewards chunks H favorite_hours dqm
       ≫= _add_constraints_and_penalties chunks H)
  ∧ (∀ dqm', _add_constraints_and_penalties chunks H dqm = Ok dqm' →
       num_cases dqm' = num_cases dqm ∧ linear dqm' = linear dqm)
  ∧ (∀ dqm',
       _add_deadline_and_unavailable_penalties chunks H unavailable_hours dqm
       = Ok dqm' → quadratic dqm' = quadratic dqm)
  ∧ (∀ dqm', _add_priority_rewards chunks H favorite_hours dqm = Ok dqm' →
       quadratic dqm' = quadratic dqm).
Proof.
  intros Hreg. rewrite (constraints_pass chunks H dqm Hreg), !bind_Ok.
  split_and!.
  - rewrite penalties_pass_with_quadratic.
    destruct (_add_deadline_and_unavailable_penalties chunks H
                unavailable_hours dqm) as [dqm1|e] eqn:Hrun; [|done].
    apply penalties_pass_keeps in Hrun as [Hn Hq]. rewrite !bind_Ok.
    rewrite constraints_pass by (by rewrite Hn). by rewrite Hq.
  - rewrite rewards_pass_with_quadratic.
    destruct (_add_priority_rewards chunks H favorite_hours dqm)
      as [dqm1|e] eqn:Hrun; [|done].
    apply rewards_pass_keeps in Hrun as [Hn Hq]. rewrite !bind_Ok.
    rewrite constraints_pass by (by rewrite Hn). by rewrite Hq.
  - by intros dqm' [= <-].
  - intros dqm' Hrun. by apply penalties_pass_keeps in Hrun as [_ ?].
  - intros dqm' Hrun. by apply rewards_pass_keeps in Hrun as [_ ?].
Qed.

Lemma penalty_pass_commutes_with_bias_passes_witness :
  (_add_constraints_and_penalties chunks_A 24 registered_A
   ≫= _add_deadline_and_unavailable_penalties chunks_A 24 unavailable_3)
  = (_add_deadline_and_unavailable_penalties chunks_A 24 unavailable_3
       registered_A
     ≫= _add_constraints_and_penalties chunks_A 24)
  ∧ (_add_constraints_and_penalties chunks_A 24 registered_A
     ≫= _add_priority_rewards chunks_A 24 favorite_4)
    = (_add_priority_rewards chunks_A 24 favorite_4 registered_A
       ≫= _add_constraints_and_penalties chunks_A 24)
  ∧ (∀ dqm', _add_constraints_and_penalties chunks_A 24 registered_A = Ok dqm' →
       num_cases dqm' = num_cases registered_A
       ∧ linear dqm' = linear registered_A)
  ∧ (∀ dqm',
       _add_deadline_and_unavailable_penalties chunks_A 24 unavailable_3
         registered_A = Ok dqm' →
       quadratic dqm' = quadratic registered_A)
  ∧ (∀ dqm', _add_priority_rewards chunks_A 24 favorite_4 registered_A
             = Ok dqm' →
       quadratic dqm' = quadratic registered_A).
Proof.
  apply (penalty_pass_commutes_with_bias_passes chunks_A 24 unavailable_3
           favorite_4 registered_A).
  intros k Hk.
  apply elem_of_cons in Hk as [->|Hk];
    [|apply elem_of_cons in Hk as [->|Hk]; [|by apply elem_of_nil in Hk]];
    by eexists.
Defined.

(** ** The values of the biases *)

(** For a chunk of priority 0 every quotient of line 81 is the float 0, and
    the bias is an integer. *)
Lemma reward_term_zero inf t :
  priority inf = 0 → 0 ≤ t → reward_term inf t = float_of_int 0.
Proof.
  intros Hp Ht. unfold reward_term, quotient. rewrite Hp.
  destruct (t + 1) as [|p|p] eqn:Hden; [lia | reflexivity | lia].
Qed.

Lemma float_value_combined_bias unavailable_hours favorite_hours inf t :
  priority inf = 0 → 0 ≤ t →
  float_value (combined_bias unavailable_hours favorite_hours inf t)
  = Some (inject_Z (deadline_term inf t
                    + unavailable_term unavailable_hours t
                    + favorite_term favorite_hours t)).
Proof.
  intros Hp Ht. unfold combined_bias, add_rewards, penalty_bias.
  rewrite (reward_term_zero inf t Hp Ht).
  unfold deadline_term, unavailable_term, favorite_term.
  destruct (decide (t + duration inf > deadline inf)),
    (decide (t ∈ unavailable_hours)), (decide (t ∈ favorite_hours));
    reflexivity.
Qed.

Lemma deadline_term_same inf ta tb :
  (ta + duration inf > deadline inf ↔ tb + duration inf > deadline inf) →
  deadline_term inf ta = deadline_term inf tb.
Proof. unfold deadline_term. intros Hiff. repeat case_decide; tauto. Qed.

Lemma unavailable_term_same (hours : gset Z) ta tb :
  (ta ∈ hours ↔ tb ∈ hours) →
  unavailable_term hours ta = unavailable_term hours tb.
Proof. unfold unavailable_term. intros Hiff. repeat case_decide; tauto. Qed.

(** X15: for a chunk of priority 0 every bias of a finished model is an
    integer, the penalties of the start time plus 1 when it is a favorite
    hour.  So of two start times that agree on the deadline penalty and on
    unavailability, the one that is a favorite hour has a bias exactly 1
    higher than the one that is not. *)
Theorem favorite_hour_costs_one_more admits tasks num_days unavailable_hours
    max_task_duration favorite_hours chunks dqm :
  _split_tasks max_task_duration tasks = Ok chunks →
  __init__ admits tasks num_days unavailable_hours max_task_duration
    favorite_hours = Ok dqm →
  ∀ task inf,
    (task, inf) ∈ chunks →
    priority inf = 0 →
    (∀ t, 0 ≤ t < num_days * 24 - duration inf + 1 →
       linear_case dqm task t
       = Some (inject_Z
                 ((if decide (t + duration inf > deadline inf) then 10 else 0)
                  + (if decide (t ∈ unavailable_hours) then 10 else 0)
                  + (if decide (t ∈ favorite_hours) then 1 else 0))))
    ∧ ∀ ta tb,
        0 ≤ ta < num_days * 24 - duration inf + 1 →
        0 ≤ tb < num_days * 24 - duration inf + 1 →
        (ta + duration inf > deadline inf ↔ tb + duration inf > deadline inf) →
        (ta ∈ unavailable_hours ↔ tb ∈ unavailable_hours) →
        ta ∈ favorite_hours → tb ∉ favorite_hours →
        ∃ b_a b_b,
          linear_case dqm task ta = Some b_a
          ∧ linear_case dqm task tb = Some b_b
          ∧ (b_a == b_b + 1)%Q.
Proof.
  intros Hsplit Hinit task inf Hc Hp.
  assert (∀ t, 0 ≤ t < num_days * 24 - duration inf + 1 →
            linear_case dqm task t
            = Some (inject_Z (deadline_term inf t
                              + unavailable_term unavailable_hours t
                              + favorite_term favorite_hours t))) as Hcase.
  { intros t Ht.
    destruct (init_linear_float _ _ _ _ _ _ _ _ task inf t Hsplit Hinit
                Hc Ht) as [_ Hb].
    unfold linear_case. rewrite Hb.
    apply float_value_combined_bias; [done|lia]. }
  split; [exact Hcase|].
  intros ta tb Ha Hb Hd Hu Hfa Hfb. eexists. eexists.
  split; [by apply Hcase|]. split; [by apply Hcase|].
  rewrite (deadline_term_same inf ta tb Hd),
    (unavailable_term_same unavailable_hours ta tb Hu).
  unfold favorite_term. rewrite decide_True, decide_False by done.
  rewrite Z.add_0_r, inject_Z_plus. reflexivity.
Qed.

Lemma favorite_hour_costs_one_more_witness :
  ∃ dqm,
    __init__ admits_positive task_plain 1 unavailable_3 1 favorite_4 = Ok dqm
    ∧ ∀ task inf,
        (task, inf) ∈ [("A_0"%string,
                        {| duration := 1; deadline := 24; priority := 0 |})] →
        priority inf = 0 →
        (∀ t, 0 ≤ t < 1 * 24 - duration inf + 1 →
           linear_case dqm task t
           = Some (inject_Z
                     ((if decide (t + duration inf > deadline inf)
                       then 10 else 0)
                      + (if decide (t ∈ unavailable_3) then 10 else 0)
                      + (if decide (t ∈ favorite_4) then 1 else 0))))
        ∧ ∀ ta tb,
            0 ≤ ta < 1 * 24 - duration inf + 1 →
            0 ≤ tb < 1 * 24 - duration inf + 1 →
            (ta + duration inf > deadline inf
             ↔ tb + duration inf > deadline inf) →
            (ta ∈ unavailable_3 ↔ tb ∈ unavailable_3) →
            ta ∈ favorite_4 → tb ∉ favorite_4 →
            ∃ b_a b_b,
              linear_case dqm task ta = Some b_a
              ∧ linear_case dqm task tb = Some b_b
              ∧ (b_a == b_b + 1)%Q.
Proof.
  destruct (init_completes admits_positive task_plain 1 unavailable_3 1
              favorite_4
              [("A_0"%string,
                {| duration := 1; deadline := 24; priority := 0 |})])
    as [dqm Hinit];
    [vm_compute; reflexivity | feasible_chunks | finite_chunks |].
  exists dqm. split; [exact Hinit|].
  apply (favorite_hour_costs_one_more admits_positive task_plain 1
           unavailable_3 1 favorite_4
           [("A_0"%string,
             {| duration := 1; deadline := 24; priority := 0 |})] dqm).
  - vm_compute. reflexivity.
  - exact Hinit.
Defined.

(** X17: the deadline test looks at the chunk alone.  In a finished model a
    chunk whose deadline is at or after the end of the horizon has no
    deadline penalty at any start time: the penalties that enter its bias
    are [0 + u], [u] the penalty of an unavailable hour; a chunk whose
    deadline is smaller than its own duration has it at every start time:
    the penalties are [10 + u]. *)
Theorem deadline_out_of_reach admits tasks num_days unavailable_hours
    max_task_duration favorite_hours chunks dqm :
  _split_tasks max_task_duration tasks = Ok chunks →
  __init__ admits tasks num_days unavailable_hours max_task_duration
    favorite_hours = Ok dqm →
  ∀ task inf t,
    (task, inf) ∈ chunks →
    0 ≤ t < num_days * 24 - duration inf + 1 →
    ∃ r,
      true_div (priority inf) (t + 1) = Ok r
      ∧ let u := if decide (t ∈ unavailable_hours) then 10 else 0 in
        let rewards :=
          float_add r
            (float_of_int (if decide (t ∈ favorite_hours) then 1 else 0)) in
        (num_days * 24 ≤ deadline inf →
           linear_float dqm task t
           = Some (float_add (float_of_int (0 + u)) rewards))
        ∧ (deadline inf < duration inf →
             linear_float dqm task t
             = Some (float_add (float_of_int (10 + u)) rewards)).
Proof.
  intros Hsplit Hinit task inf t Hin Ht.
  destruct (init_linear_float _ _ _ _ _ _ _ _ task inf t Hsplit Hinit Hin Ht)
    as [Hdiv Hb].
  exists (reward_term inf t). split; [exact Hdiv|]. cbv zeta.
  rewrite Hb. unfold combined_bias, add_rewards, penalty_bias, deadline_term.
  split; intros Hd.
  - by rewrite decide_False by lia.
  - by rewrite decide_True by lia.
Qed.

Lemma deadline_out_of_reach_witness :
  ∃ dqm,
    __init__ admits_positive tasks_reach 1 unavailable_3 2 favorite_4 = Ok dqm
    ∧ ∀ task inf t,
        (task, inf) ∈ chunks_reach →
        0 ≤ t < 1 * 24 - duration inf + 1 →
        ∃ r,
          true_div (priority inf) (t + 1) = Ok r
          ∧ let u := if decide (t ∈ unavailable_3) then 10 else 0 in
            let rewards :=
              float_add r
                (float_of_int (if decide (t ∈ favorite_4) then 1 else 0)) in
            (1 * 24 ≤ deadline inf →
               linear_float dqm task t
               = Some (float_add (float_of_int (0 + u)) rewards))
            ∧ (deadline inf < duration inf →
                 linear_float dqm task t
                 = Some (float_add (float_of_int (10 + u)) rewards)).
Proof.
  destruct (init_completes admits_positive tasks_reach 1 unavailable_3 2
              favorite_4 chunks_reach)
    as [dqm Hinit];
    [vm_compute; reflexivity | feasible_chunks | finite_chunks |].
  exists dqm. split; [exact Hinit|].
  apply (deadline_out_of_reach admits_positive tasks_reach 1 unavailable_3 2
           favorite_4 chunks_reach dqm).
  - vm_compute. reflexivity.
  - exact Hinit.
Defined.
